(** * Bash command server: safety gate and execution runner

    A shallow embedding of [servers/bash-command-server/src/bash_command_server.py]:
    the command filter [is_command_safe] and the runner [execute_bash_command],
    together with the part of Python's [shlex] tokenizer that the filter calls.

    Text is modelled by [string]: a character is a code point below 256
    (Latin-1), which is where every literal of the program lives. *)

From Stdlib Require Import ZArith String Ascii List Bool Lia DecimalString.
From stdpp Require Import base gmap strings list sorting.
Import ListNotations.

Local Open Scope string_scope.
Local Open Scope Z_scope.

(** ** Python exceptions and the error monad *)

Inductive exn : Type :=
  | ValueError (msg : string)
  | TimeoutError
  | OSError (msg : string).

(** [str(e)] *)
Definition exn_str (e : exn) : string :=
  match e with
  | ValueError m => m
  | TimeoutError => ""
  | OSError m => m
  end.

Inductive result (A : Type) : Type :=
  | Ok (a : A)
  | Raise (e : exn).
Arguments Ok {A} a.
Arguments Raise {A} e.

Definition rbind {A B} (r : result A) (k : A -> result B) : result B :=
  match r with
  | Ok a => k a
  | Raise e => Raise e
  end.

Definition rmap {A B} (f : A -> B) (r : result A) : result B :=
  rbind r (fun a => Ok (f a)).

Notation "'let?' x ':=' r 'in' k" := (rbind r (fun x => k))
  (at level 10, x pattern, r at level 100, k at level 200).

(** ** Characters and strings *)

Definition chr (n : nat) : ascii := ascii_of_nat n.
Definition ord (c : ascii) : nat := nat_of_ascii c.

Definition char_in (c : ascii) (cs : list ascii) : bool :=
  existsb (Ascii.eqb c) cs.

(** [str.lower] on code points below 256: the ASCII capitals and the Latin-1
    capitals U+00C0..U+00DE (the multiplication sign U+00D7 apart) move up
    by 32; everything else is unchanged. *)
Definition lower_char (c : ascii) : ascii :=
  let n := ord c in
  if ((65 <=? n)%nat && (n <=? 90)%nat)
     || ((192 <=? n)%nat && (n <=? 222)%nat && negb (n =? 215)%nat)
  then chr (n + 32) else c.

Fixpoint lower (s : string) : string :=
  match s with
  | EmptyString => EmptyString
  | String c s' => String (lower_char c) (lower s')
  end.

(** [token += c] *)
Definition snoc (s : string) (c : ascii) : string := s ++ String c EmptyString.

(** [p in s] for strings: [p] occurs in [s] as a contiguous substring. *)
Fixpoint contains (p s : string) : bool :=
  String.prefix p s ||
  match s with
  | EmptyString => false
  | String _ s' => contains p s'
  end.

(** f-string rendering of an integer *)
Definition str_of_int (z : Z) : string := NilZero.string_of_int (Z.to_int z).

(** ** shlex.split(s) with the defaults comments=False, posix=True *)

Module shlex.

(** The lexer's settings after [split] has set them. *)
Definition whitespace : list ascii := [" "; "009"; "013"; "010"]%char.
Definition quotes : list ascii := ["'"; "034"]%char.
Definition escape : list ascii := ["\"]%char.
Definition escapedquotes : list ascii := ["034"]%char.

(** [self.state] and [escapedstate] hold a character or None: None, ' ',
    'a', a quote character, or the escape character. *)
Inductive state : Type :=
  | StEof                 (* None *)
  | StSpace               (* ' ' *)
  | StWord                (* 'a' *)
  | StQuote (q : ascii)   (* the opening quote *)
  | StEscape (e : ascii). (* the escape character *)

Definition state_in_quotes (st : state) : bool :=
  match st with StQuote _ => true | _ => false end.

(** [nextchar != st] where [st] is a state that holds a character *)
Definition differs (c : ascii) (st : state) : bool :=
  match st with
  | StQuote q => negb (Ascii.eqb c q)
  | StEscape e => negb (Ascii.eqb c e)
  | StSpace => negb (Ascii.eqb c " ")
  | StWord => negb (Ascii.eqb c "a")
  | StEof => true
  end.

(** The end of [read_token]: the token read, or None when nothing was read
    and no quote was seen. *)
Definition finish (token : string) (quoted : bool) : option string :=
  if negb quoted && String.eqb token "" then None else Some token.

(** [self.token or (self.posix and quoted)] *)
Definition has_token (token : string) (quoted : bool) : bool :=
  negb (String.eqb token "") || quoted.

(** [list(lex)]: [read_token] is called until it returns None.  The two
    loops are fused: [instream] is what is left to read, the other
    arguments are [self.state], [self.token] and the locals [quoted] and
    [escapedstate] of the call of [read_token] in progress.  A [break]
    appends the token to the list and starts the next call with fresh
    locals; a None token ends the iteration.

    With [whitespace_split] set, [commenters] and [punctuation_chars] empty,
    the branches on comments and punctuation are dead and the branch on
    [wordchars] does what the branch on [whitespace_split] does. *)
Fixpoint read_tokens (instream : string) (st : state) (token : string)
    (quoted : bool) (escapedstate : state) : result (list string) :=
  match instream with
  | EmptyString =>                       (* nextchar = '' *)
      match st with
      | StEof => Ok []                   (* past end of file *)
      | StSpace | StWord =>              (* state = None; break *)
          Ok (match finish token quoted with Some t => [t] | None => [] end)
      | StQuote _ => Raise (ValueError "No closing quotation")
      | StEscape _ => Raise (ValueError "No escaped character")
      end
  | String nextchar rest =>
      let break st' :=
        match finish token quoted with
        | Some t => rmap (cons t) (read_tokens rest st' "" false StSpace)
        | None => Ok []
        end in
      match st with
      | StEof => Ok []
      | StSpace =>
          if char_in nextchar whitespace then
            if has_token token quoted then break StSpace
            else read_tokens rest StSpace token quoted escapedstate
          else if char_in nextchar escape then
            read_tokens rest (StEscape nextchar) token quoted StWord
          else if char_in nextchar quotes then
            read_tokens rest (StQuote nextchar) token quoted escapedstate
          else
            read_tokens rest StWord (String nextchar "") quoted escapedstate
      | StQuote q =>
          (* quoted = True *)
          if Ascii.eqb nextchar q then
            read_tokens rest StWord token true escapedstate
          else if char_in nextchar escape && char_in q escapedquotes then
            read_tokens rest (StEscape nextchar) token true (StQuote q)
          else
            read_tokens rest (StQuote q) (snoc token nextchar) true escapedstate
      | StEscape e =>
          let token' :=
            if state_in_quotes escapedstate && negb (Ascii.eqb nextchar e)
               && differs nextchar escapedstate
            then snoc token e else token in
          read_tokens rest escapedstate (snoc token' nextchar) quoted escapedstate
      | StWord =>
          if char_in nextchar whitespace then
            if has_token token quoted then break StSpace
            else read_tokens rest StSpace token quoted escapedstate
          else if char_in nextchar quotes then
            read_tokens rest (StQuote nextchar) token quoted escapedstate
          else if char_in nextchar escape then
            read_tokens rest (StEscape nextchar) token quoted StWord
          else
            read_tokens rest StWord (snoc token nextchar) quoted escapedstate
      end
  end.

Definition split (s : string) : result (list string) :=
  read_tokens s StSpace "" false StSpace.

End shlex.

(** ** Security configuration *)

Definition MAX_COMMAND_LENGTH : Z := 1000.
Definition TIMEOUT_SECONDS : Z := 30.

Definition BLOCKED_COMMANDS : gset string :=
  list_to_set
    [ "rm"; "rmdir"; "del"; "format"; "fdisk"; "mkfs";
      "dd"; "shutdown"; "reboot"; "halt"; "poweroff";
      "sudo"; "su"; "passwd"; "chown"; "chmod";
      "crontab"; "at"; "batch"; "systemctl"; "service" ].

Definition BLOCKED_PATTERNS : list string :=
  [ "&&"; "||"; ";"; "|"; ">"; ">>"; "<"; "`"; "$(";
    "eval"; "exec"; "source"; "."; "wget"; "curl -X" ].

(** ** The safety gate *)

(** [parts and parts[0] in BLOCKED_COMMANDS]: the blocked first token. *)
Definition blocked_command (parts : list string) : option string :=
  match parts with
  | p0 :: _ => if bool_decide (p0 ∈ BLOCKED_COMMANDS) then Some p0 else None
  | [] => None
  end.

(** [is_command_safe], with the tokenizer it calls as an argument. *)
Definition is_command_safe_with (split : string -> result (list string))
    (command : string) : result (bool * string) :=
  if MAX_COMMAND_LENGTH <? Z.of_nat (String.length command) then
    Ok (false, "Command too long (max " ++ str_of_int MAX_COMMAND_LENGTH
               ++ " characters)")
  else
    (* Check for blocked commands *)
    let? parts := split (lower command) in
    match blocked_command parts with
    | Some p0 => Ok (false, "Blocked command: " ++ p0)
    | None =>
        (* Check for blocked patterns *)
        match List.find (fun pattern => contains pattern command) BLOCKED_PATTERNS with
        | Some pattern => Ok (false, "Blocked pattern detected: " ++ pattern)
        | None =>
            (* Check for suspicious characters *)
            if existsb (fun char => contains char command) ["$("; "`"; "{"; "}"]
            then Ok (false, "Command contains potentially dangerous characters")
            else Ok (true, "")
        end
    end.

Definition is_command_safe (command : string) : result (bool * string) :=
  is_command_safe_with shlex.split command.

(** ** The result of a call *)

(** The dictionary [execute_bash_command] returns; the key "error" is absent
    from the dictionary of a successful run, which is [error = None] here. *)
Record ExecutionResult : Type := {
  success : bool;
  stdout : string;
  stderr : string;
  return_code : Z;
  error : option string;
  command : string;
  working_dir : string
}.

(** The shape shared by every failure that leaves no exit status. *)
Definition failure (err command working_dir : string) : ExecutionResult :=
  {| success := false; error := Some err; stdout := ""; stderr := "";
     return_code := -1; command := command; working_dir := working_dir |}.

(** ** The host: what one call sees of the operating system *)

(** A spawned shell, in milliseconds after the spawn.  [exit_after] is when
    the shell itself exits if left alone (None: never).  [released_after] is
    when the other processes that hold the write ends of the two pipes, the
    commands the shell started, have all closed them (None: never; 0 when
    the shell started none).  Then what was written to the pipes up to
    their end of file, and the exit status of the shell. *)
Record child : Type := {
  exit_after : option Z;
  released_after : option Z;
  child_stdout : list Byte.byte;
  child_stderr : list Byte.byte;
  returncode : Z
}.

(** The calls into the operating system return or raise, as the host
    decides: [Path.exists] and [Path.is_dir] raise OSError on a name that is
    too long or a directory that may not be searched, [os.getcwd] when the
    current directory is gone. *)
Record Host : Type := {
  environ : gmap string string;              (* os.environ *)
  getcwd : result string;                    (* os.getcwd() *)
  path_exists : string -> result bool;       (* Path(p).exists() *)
  path_is_dir : string -> result bool;       (* Path(p).is_dir() *)
  (* asyncio.create_subprocess_shell(command, cwd=..., env=...) *)
  spawn : string -> option string -> gmap string string -> result child
}.

Inductive event : Type :=
  | Spawn (command : string) (cwd : option string) (env : gmap string string)
  | Communicate (timeout : Z)
  | Kill
  | Wait.

(** The shell that was spawned; the commands it started are not followed. *)
Inductive proc_status : Type :=
  | NoProcess      (* nothing was spawned *)
  | Running
  | Exited         (* exited on its own; its exit status is known to asyncio *)
  | Killed         (* signalled, not yet waited for *)
  | Reaped.        (* exited and waited for *)

Record run_state : Type := {
  trace : list event;
  process : proc_status
}.

Definition initial : run_state := {| trace := []; process := NoProcess |}.

(** ** State, exceptions and awaits that never resume *)

(** What a coroutine comes to: a value or an exception, or nothing at all
    when one of its awaits never resumes. *)
Inductive answer (A : Type) : Type :=
  | Done (r : result A)
  | Pending.
Arguments Done {A} r.
Arguments Pending {A}.

Definition M (A : Type) : Type := run_state -> answer A * run_state.

Definition ret {A} (a : A) : M A := fun s => (Done (Ok a), s).
Definition raise {A} (e : exn) : M A := fun s => (Done (Raise e), s).
Definition lift {A} (r : result A) : M A := fun s => (Done r, s).

Definition bind {A B} (m : M A) (k : A -> M B) : M B :=
  fun s =>
    match m s with
    | (Done (Ok a), s') => k a s'
    | (Done (Raise e), s') => (Done (Raise e), s')
    | (Pending, s') => (Pending, s')
    end.

Notation "x <- m ;; k" := (bind m (fun x => k))
  (at level 100, m at next level, right associativity).
Notation "m ;;; k" := (bind m (fun _ => k))
  (at level 100, right associativity).

(** [try: m except asyncio.TimeoutError: h] *)
Definition except_timeout {A} (m : M A) (h : M A) : M A :=
  fun s =>
    match m s with
    | (Done (Raise TimeoutError), s') => h s'
    | r => r
    end.

(** [try: m except Exception as e: h e] *)
Definition except_exception {A} (m : M A) (h : exn -> M A) : M A :=
  fun s =>
    match m s with
    | (Done (Raise e), s') => h e s'
    | r => r
    end.

Definition log (ev : event) : M unit :=
  fun s => (Done (Ok tt), {| trace := trace s ++ [ev]; process := process s |}).

Definition set_process (f : proc_status -> proc_status) : M unit :=
  fun s => (Done (Ok tt), {| trace := trace s; process := f (process s) |}).

(** ** The subprocess interface *)

Definition create_subprocess_shell (h : Host) (command : string)
    (cwd : option string) (env : gmap string string) : M child :=
  log (Spawn command cwd env) ;;;
  c <- lift (spawn h command cwd env) ;;
  set_process (fun _ => Running) ;;;
  ret c.

(** The shell exits before the deadline of [timeout] seconds. *)
Definition exits_within (c : child) (timeout : Z) : bool :=
  match exit_after c with
  | Some t => t <=? 1000 * timeout
  | None => false
  end.

(** The commands the shell started have closed the pipes before the
    deadline of [timeout] seconds. *)
Definition released_within (c : child) (timeout : Z) : bool :=
  match released_after c with
  | Some t => t <=? 1000 * timeout
  | None => false
  end.

(** [process.communicate()] reads both pipes up to their end of file and
    then waits for the shell: it is done when the shell has exited and
    every other holder of the pipes has closed them. *)
Definition completes_within (c : child) (timeout : Z) : bool :=
  exits_within c timeout && released_within c timeout.

(** [asyncio.wait_for(process.communicate(), timeout=timeout)]: at the
    deadline the shell is still running, or it has exited while a command it
    started still holds a pipe. *)
Definition wait_for_communicate (c : child) (timeout : Z)
    : M (list Byte.byte * list Byte.byte) :=
  log (Communicate timeout) ;;;
  if completes_within c timeout then
    set_process (fun _ => Reaped) ;;;
    ret (child_stdout c, child_stderr c)
  else
    set_process (fun p => if exits_within c timeout then Exited else p) ;;;
    raise TimeoutError.

(** [process.kill()]: the signal goes to the shell alone, not to the
    commands it started; a shell that has exited already is left alone. *)
Definition kill : M unit :=
  log Kill ;;;
  set_process (fun p => match p with Running => Killed | _ => p end).

(** Whether [await process.wait()] ever resumes.  When the exit status is
    known already it returns at once.  Otherwise the waiter is woken when
    the shell is gone and both pipes are disconnected: after a kill, when
    the commands the shell started release the pipes, if they ever do. *)
Definition wait_resumes (c : child) (p : proc_status) : bool :=
  match p with
  | NoProcess | Exited | Reaped => true
  | Killed => bool_decide (is_Some (released_after c))
  | Running =>
      bool_decide (is_Some (exit_after c))
      && bool_decide (is_Some (released_after c))
  end.

(** [await process.wait()] *)
Definition wait (c : child) : M unit :=
  log Wait ;;;
  fun s =>
    if wait_resumes c (process s)
    then (Done (Ok tt), {| trace := trace s; process := Reaped |})
    else (Pending, s).

(** ** Python helpers *)

(** [if working_dir:]: None and the empty string are false. *)
Definition given (working_dir : option string) : option string :=
  match working_dir with
  | Some d => if String.eqb d "" then None else Some d
  | None => None
  end.

(** [working_dir or os.getcwd()]: [os.getcwd] is called, and may raise,
    only when no working directory is given. *)
Definition resolve (h : Host) (working_dir : option string) : result string :=
  match given working_dir with
  | Some d => Ok d
  | None => getcwd h
  end.

(** [os.environ.get(k, '')] *)
Definition environ_get (h : Host) (k : string) : string :=
  default "" (environ h !! k).

(** [str.isspace] on code points below 256 *)
Definition isspace (c : ascii) : bool :=
  let n := ord c in
  ((9 <=? n)%nat && (n <=? 13)%nat) || ((28 <=? n)%nat && (n <=? 32)%nat)
  || (n =? 133)%nat || (n =? 160)%nat.

Fixpoint lstrip (s : string) : string :=
  match s with
  | String c s' => if isspace c then lstrip s' else s
  | EmptyString => EmptyString
  end.

Fixpoint rstrip (s : string) : string :=
  match s with
  | String c s' =>
      match rstrip s' with
      | EmptyString => if isspace c then EmptyString else String c EmptyString
      | r => String c r
      end
  | EmptyString => EmptyString
  end.

Definition strip (s : string) : string := rstrip (lstrip s).

(** ** The runner *)

(** The [env=] dictionary of the spawn: limit environment for security.
    [pwd] is the value of [working_dir or os.getcwd()]. *)
Definition child_env (h : Host) (pwd : string) : gmap string string :=
  <["PATH" := environ_get h "PATH"]>
    (<["HOME" := environ_get h "HOME"]>
       (<["USER" := environ_get h "USER"]>
          {["PWD" := pwd]})).

Section Runner.

(** [bytes.decode('utf-8', errors='replace')]: total, it never raises. *)
Variable decode : list Byte.byte -> string.

(** The [try] block of [execute_bash_command].  The inner [try] gives the
    output and the exit status, or the dictionary that its [except] clause
    returns from the function. *)
Definition run_command (h : Host) (command : string)
    (working_dir : option string) : M ExecutionResult :=
  except_exception
    ((* Execute command with timeout *)
     pwd <- lift (resolve h working_dir) ;;
     process <- create_subprocess_shell h command working_dir
                  (child_env h pwd) ;;
     (* Wait for completion with timeout *)
     waited <-
       except_timeout
         (out <- wait_for_communicate process TIMEOUT_SECONDS ;;
          ret (inl (out, returncode process)))
         ((* Kill the process if it times out *)
          kill ;;;
          wait process ;;;
          dir <- lift (resolve h working_dir) ;;
          ret (inr (failure ("Command timed out after "
                             ++ str_of_int TIMEOUT_SECONDS ++ " seconds")
                            command dir))) ;;
     match waited with
     | inr timed_out => ret timed_out
     | inl (out, return_code) =>
         (* Decode output *)
         let stdout_text := strip (decode (fst out)) in
         let stderr_text := strip (decode (snd out)) in
         let success := return_code =? 0 in
         dir <- lift (resolve h working_dir) ;;
         ret {| success := success;
                stdout := stdout_text;
                stderr := stderr_text;
                return_code := return_code;
                command := command;
                working_dir := dir;
                error := if negb success
                         then Some ("Command failed with return code "
                                    ++ str_of_int return_code)
                         else None |}
     end)
    (fun e =>
       dir <- lift (resolve h working_dir) ;;
       ret (failure ("Execution error: " ++ exn_str e) command dir)).

Definition execute_bash_command (h : Host) (command : string)
    (working_dir : option string) : M ExecutionResult :=
  (* Validate command safety *)
  safe <- lift (is_command_safe command) ;;
  let '(is_safe, reason) := safe in
  if negb is_safe then
    dir <- lift (resolve h working_dir) ;;
    ret (failure ("Command blocked for security: " ++ reason) command dir)
  else
    (* Validate working directory if provided *)
    match given working_dir with
    | Some d =>
        found <- lift (path_exists h d) ;;
        if negb found then
          ret (failure ("Working directory does not exist: " ++ d) command d)
        else
          is_dir <- lift (path_is_dir h d) ;;
          if negb is_dir then
            ret (failure ("Working directory path is not a directory: " ++ d)
                         command d)
          else run_command h command working_dir
    | None => run_command h command working_dir
    end.

End Runner.

(** ** The tools *)

(** [execute_bash]: the tool hands its two arguments to the core. *)
Definition execute_bash (decode : list Byte.byte -> string) (h : Host)
    (command : string) (working_directory : option string) : M ExecutionResult :=
  execute_bash_command decode h command working_directory.

Definition list_safe_commands : list string :=
  [ "ls -la";
    "pwd";
    "whoami";
    "date";
    "echo 'hello world'";
    "cat /etc/os-release";
    "ps aux";
    "df -h";
    "free -h";
    "uptime";
    "which python";
    "python --version";
    "uv --version";
    "git status";
    "git log --oneline -5" ].

(** [sorted(l)] on strings: a merge sort by code points. *)
Definition sorted (l : list string) : list string := merge_sort String.le l.

(** The dictionary [get_security_info] returns. *)
Record SecurityInfo : Type := {
  max_command_length : Z;
  timeout_seconds : Z;
  blocked_commands : list string;
  blocked_patterns : list string;
  environment_variables_available : list string;
  security_features : list string
}.

(** [list(BLOCKED_COMMANDS)] is [elements]: the members in some order. *)
Definition get_security_info : SecurityInfo :=
  {| max_command_length := MAX_COMMAND_LENGTH;
     timeout_seconds := TIMEOUT_SECONDS;
     blocked_commands := sorted (elements BLOCKED_COMMANDS);
     blocked_patterns := BLOCKED_PATTERNS;
     environment_variables_available := ["PATH"; "HOME"; "USER"; "PWD"];
     security_features :=
       [ "Command length validation";
         "Dangerous command blocking";
         "Pattern-based filtering";
         "Execution timeout";
         "Limited environment";
         "Working directory validation";
         "Safe character validation" ] |}.

(** * Vocabulary of the properties *)

(** States reachable by the lexer: a quote state holds a quote character, an
    escape state the escape character. *)
Definition wf_state (st : shlex.state) : Prop :=
  match st with
  | shlex.StQuote q => char_in q shlex.quotes = true
  | shlex.StEscape e => char_in e shlex.escape = true
  | _ => True
  end.

(** [p] occurs in [s] at some position. *)
Definition occurs_in (p s : string) : Prop :=
  exists pre post, s = pre ++ p ++ post.

(** [p] is the first pattern of [patterns], in list order, that occurs in
    [command]. *)
Definition first_matching (patterns : list string) (command p : string) : Prop :=
  exists before after,
    patterns = (before ++ p :: after)%list
    /\ occurs_in p command
    /\ forall q, q ∈ before -> ~ occurs_in q command.

(** [len(command) <= MAX_COMMAND_LENGTH] *)
Definition within_limit (command : string) : Prop :=
  Z.of_nat (String.length command) <= MAX_COMMAND_LENGTH.

(** The first token, lower-cased, is not a blocked command (or there is no
    token at all). *)
Definition first_token_allowed (parts : list string) : Prop :=
  forall t, head parts = Some t -> lower t ∉ BLOCKED_COMMANDS.

(** The command made of [echo], a space, a double quote and [hello]: the
    quote is never closed. *)
Definition unclosed_quote : string := "echo " ++ String "034" "hello".

(** [c * n] *)
Fixpoint repeat_char (n : nat) (c : ascii) : string :=
  match n with
  | O => EmptyString
  | S n' => String c (repeat_char n' c)
  end.

(** 1001 characters, the first an unmatched double quote. *)
Definition over_long_unclosed : string := String "034" (repeat_char 1000 "a").

(** The entries of [patterns] that come before the first [p]. *)
Fixpoint patterns_before (p : string) (patterns : list string) : list string :=
  match patterns with
  | [] => []
  | x :: l => if String.eqb x p then [] else x :: patterns_before p l
  end.

(** The working directory passes the validation of [execute_bash_command]:
    none is given, or the one given exists and is a directory. *)
Definition valid_working_dir (h : Host) (working_dir : option string) : Prop :=
  match given working_dir with
  | Some d => path_exists h d = Ok true /\ path_is_dir h d = Ok true
  | None => True
  end.

(** A shell that starts no command that outlives it: exits after 5 ms. *)
Definition quick (out : list Byte.byte) (rc : Z) : child :=
  {| exit_after := Some 5; released_after := Some 0;
     child_stdout := out; child_stderr := []; returncode := rc |}.

(** The shell of [tail -f /dev/null] under a [/bin/sh] that forks its
    commands: the shell waits for [tail], which never ends and holds both
    pipes. *)
Definition endless : child :=
  {| exit_after := None; released_after := None;
     child_stdout := []; child_stderr := []; returncode := -9 |}.

(** The shell of [sleep 60 &]: it exits at once with status 0, having
    written nothing, and leaves [sleep] holding the pipes for a minute. *)
Definition backgrounded : child :=
  {| exit_after := Some 2; released_after := Some 60000;
     child_stdout := []; child_stderr := []; returncode := 0 |}.

(** A host for the examples: [/tmp] is a directory, [/etc/hostname] a file,
    nothing else exists; the shell forks the commands it runs. *)
Definition sample_host : Host :=
  {| environ := <["PATH" := "/usr/bin"]>
                  (<["HOME" := "/root"]> (<["API_TOKEN" := "hunter2"]> ∅));
     getcwd := Ok "/srv";
     path_exists :=
       fun p => Ok (String.eqb p "/tmp" || String.eqb p "/etc/hostname");
     path_is_dir := fun p => Ok (String.eqb p "/tmp");
     spawn := fun c _ _ =>
       if String.eqb c "sleep 60" then
         Ok {| exit_after := Some 60000; released_after := Some 60000;
               child_stdout := []; child_stderr := []; returncode := 0 |}
       else if String.eqb c "tail -f /dev/null" then Ok endless
       else if String.eqb c "sleep 60 &" then Ok backgrounded
       else if String.eqb c "true" then Ok (quick [] 0)
       else Ok (quick [Byte.x68; Byte.x69; Byte.x0a] 0) |}.

(** A decoder to run the examples with: it agrees with UTF-8 on ASCII bytes. *)
Definition sample_decode (b : list Byte.byte) : string := string_of_list_byte b.

(** The event is a call of [create_subprocess_shell]. *)
Definition is_spawn (ev : event) : bool :=
  match ev with Spawn _ _ _ => true | _ => false end.

(** Every character of [s] satisfies [f]. *)
Fixpoint all_chars (f : ascii -> bool) (s : string) : bool :=
  match s with
  | EmptyString => true
  | String c s' => f c && all_chars f s'
  end.

(** A character that the lexer takes as part of a word: no blank, no quote,
    no backslash. *)
Definition plain_char (c : ascii) : bool :=
  negb (char_in c shlex.whitespace) && negb (char_in c shlex.quotes)
  && negb (char_in c shlex.escape).

(** A word written without quoting. *)
Definition plain (w : string) : bool := all_chars plain_char w.

(** A command made of blanks only (possibly empty). *)
Definition blank (s : string) : bool :=
  all_chars (fun c => char_in c shlex.whitespace) s.

(** No white space at either end. *)
Definition stripped (s : string) : Prop :=
  (forall c s', s = String c s' -> isspace c = false)
  /\ (forall s' c, s = s' ++ String c "" -> isspace c = false).

(** What a call leaves behind: the calls it made and the state of the shell,
    for each way through [execute_bash_command]. *)
Inductive footprint (cmd : string) (wd : option string) (env : gmap string string)
    : run_state -> Prop :=
  | nothing_spawned : footprint cmd wd env initial
  | spawn_failed :
      footprint cmd wd env
        {| trace := [Spawn cmd wd env]; process := NoProcess |}
  | ran_to_completion :
      footprint cmd wd env
        {| trace := [Spawn cmd wd env; Communicate TIMEOUT_SECONDS];
           process := Reaped |}
  | killed_on_timeout :
      footprint cmd wd env
        {| trace := [Spawn cmd wd env; Communicate TIMEOUT_SECONDS; Kill; Wait];
           process := Reaped |}
  | waiting_for_ever :
      footprint cmd wd env
        {| trace := [Spawn cmd wd env; Communicate TIMEOUT_SECONDS; Kill; Wait];
           process := Killed |}.

(** A second host for the examples: no path exists and a name of more than
    255 characters cannot even be looked up; listing [/nonexistent] fails
    with exit status 2 and a message on stderr; no other command can be
    spawned. *)
Definition failing_host : Host :=
  {| environ := ∅;
     getcwd := Ok "/";
     path_exists := fun p =>
       if (255 <? String.length p)%nat
       then Raise (OSError "[Errno 36] File name too long")
       else Ok false;
     path_is_dir := fun p =>
       if (255 <? String.length p)%nat
       then Raise (OSError "[Errno 36] File name too long")
       else Ok false;
     spawn := fun c _ _ =>
       if String.eqb c "ls /nonexistent" then
         Ok {| exit_after := Some 3; released_after := Some 3;
               child_stdout := [];
               child_stderr := [Byte.x6e; Byte.x6f; Byte.x0a]; returncode := 2 |}
       else Raise (OSError "[Errno 2] No such file or directory") |}.

(** A host whose current directory has been removed. *)
Definition lost_host : Host :=
  {| environ := ∅;
     getcwd := Raise (OSError "[Errno 2] No such file or directory");
     path_exists := fun _ => Ok false;
     path_is_dir := fun _ => Ok false;
     spawn := fun _ _ _ => Ok (quick [] 0) |}.

(** * Properties *)

(** ** Lower-casing and tokenizing commute *)

Lemma lower_char_class (c : ascii) (cs : list ascii) :
  cs = shlex.whitespace \/ cs = shlex.quotes \/ cs = shlex.escape ->
  char_in (lower_char c) cs = char_in c cs.
Proof.
  intros [-> | [-> | ->]];
    destruct c as [[] [] [] [] [] [] [] []]; reflexivity.
Qed.

Lemma lower_char_eqb (c q : ascii) :
  char_in q shlex.quotes = true \/ char_in q shlex.escape = true ->
  Ascii.eqb (lower_char c) q = Ascii.eqb c q.
Proof.
  intros H.
  assert (Hq : q = "'"%char \/ q = "034"%char \/ q = "\"%char).
  { unfold char_in in H. cbn in H.
    destruct H as [H | H];
      repeat match type of H with
             | (?a || ?b)%bool = true => apply orb_true_iff in H as [H | H]
             | Ascii.eqb _ _ = true => apply Ascii.eqb_eq in H
             end; auto; discriminate. }
  destruct Hq as [-> | [-> | ->]];
    destruct c as [[] [] [] [] [] [] [] []]; reflexivity.
Qed.

Lemma lower_char_special (c : ascii) :
  char_in c shlex.quotes = true \/ char_in c shlex.escape = true ->
  lower_char c = c.
Proof.
  intros H. destruct c as [[] [] [] [] [] [] [] []]; try reflexivity;
    destruct H; discriminate.
Qed.

Lemma lower_app (s t : string) : lower (s ++ t) = lower s ++ lower t.
Proof.
  induction s as [| c s IH]; [reflexivity |].
  change (String (lower_char c) (lower (s ++ t))
          = String (lower_char c) (lower s ++ lower t)).
  now rewrite IH.
Qed.

Lemma lower_snoc (t : string) (c : ascii) :
  lower (snoc t c) = snoc (lower t) (lower_char c).
Proof. unfold snoc. now rewrite lower_app. Qed.

Lemma lower_eqb_empty (t : string) : String.eqb (lower t) "" = String.eqb t "".
Proof. destruct t; reflexivity. Qed.

Lemma finish_lower (token : string) (quoted : bool) :
  shlex.finish (lower token) quoted = option_map lower (shlex.finish token quoted).
Proof.
  unfold shlex.finish. rewrite lower_eqb_empty.
  now destruct (negb quoted && String.eqb token "")%bool.
Qed.

Lemma has_token_lower (token : string) (quoted : bool) :
  shlex.has_token (lower token) quoted = shlex.has_token token quoted.
Proof. unfold shlex.has_token. now rewrite lower_eqb_empty. Qed.

Lemma differs_lower (c : ascii) (st : shlex.state) :
  shlex.state_in_quotes st = true -> wf_state st ->
  shlex.differs (lower_char c) st = shlex.differs c st.
Proof.
  destruct st; cbn; try discriminate. intros _ Hq.
  now rewrite lower_char_eqb by auto.
Qed.

Lemma rmap_rmap {A B C} (f : A -> B) (g : B -> C) (r : result A) :
  rmap g (rmap f r) = rmap (fun a => g (f a)) r.
Proof. now destruct r. Qed.

Lemma read_tokens_lower (s : string) :
  forall st token quoted esc,
    wf_state st -> wf_state esc ->
    shlex.read_tokens (lower s) st (lower token) quoted esc
    = rmap (List.map lower) (shlex.read_tokens s st token quoted esc).
Proof.
  induction s as [| c s IH]; intros st token quoted esc Hst Hesc.
  - destruct st; cbn [lower shlex.read_tokens]; try reflexivity;
      rewrite finish_lower; now destruct (shlex.finish token quoted).
  - cbn [lower shlex.read_tokens].
    rewrite finish_lower, has_token_lower.
    rewrite !lower_char_class by auto.
    assert (Hbreak :
      match option_map lower (shlex.finish token quoted) with
      | Some t =>
          rmap (cons t) (shlex.read_tokens (lower s) shlex.StSpace "" false shlex.StSpace)
      | None => Ok []
      end
      = rmap (List.map lower)
          match shlex.finish token quoted with
          | Some t =>
              rmap (cons t) (shlex.read_tokens s shlex.StSpace "" false shlex.StSpace)
          | None => Ok []
          end).
    { destruct (shlex.finish token quoted) as [t |]; cbn [option_map];
        [| reflexivity].
      change "" with (lower "") at 1.
      rewrite IH by exact I. now rewrite !rmap_rmap. }
    destruct st as [| | | q | e]; cbn [wf_state] in Hst.
    + reflexivity.
    + destruct (char_in c shlex.whitespace).
      { destruct (shlex.has_token token quoted); [exact Hbreak | now apply IH]. }
      destruct (char_in c shlex.escape) eqn:Hc.
      { rewrite lower_char_special by auto. now apply IH. }
      destruct (char_in c shlex.quotes) eqn:Hq.
      { rewrite lower_char_special by auto. now apply IH. }
      change (String (lower_char c) "") with (lower (String c "")).
      now apply IH.
    + destruct (char_in c shlex.whitespace).
      { destruct (shlex.has_token token quoted); [exact Hbreak | now apply IH]. }
      destruct (char_in c shlex.quotes) eqn:Hq.
      { rewrite lower_char_special by auto. now apply IH. }
      destruct (char_in c shlex.escape) eqn:Hc.
      { rewrite lower_char_special by auto. now apply IH. }
      rewrite <- lower_snoc. now apply IH.
    + rewrite lower_char_eqb by auto.
      destruct (Ascii.eqb c q); [now apply IH |].
      destruct (char_in c shlex.escape && char_in q shlex.escapedquotes)%bool eqn:Hc.
      { apply andb_true_iff in Hc as [Hc _].
        rewrite lower_char_special by auto. now apply IH. }
      rewrite <- lower_snoc. now apply IH.
    + rewrite lower_char_eqb by auto.
      destruct (shlex.state_in_quotes esc) eqn:Hin.
      * rewrite differs_lower by assumption.
        assert (He : lower_char e = e).
        { unfold char_in in Hst. cbn in Hst. rewrite orb_false_r in Hst.
          apply Ascii.eqb_eq in Hst. now subst e. }
        destruct (true && negb (Ascii.eqb c e) && shlex.differs c esc)%bool.
        -- rewrite <- He at 1. rewrite <- !lower_snoc. now apply IH.
        -- rewrite <- lower_snoc. now apply IH.
      * cbn [andb]. rewrite <- lower_snoc. now apply IH.
Qed.

Lemma split_lower (s : string) :
  shlex.split (lower s) = rmap (List.map lower) (shlex.split s).
Proof. apply (read_tokens_lower s shlex.StSpace ""); exact I. Qed.

(** ** Substrings *)

Lemma prefix_spec (p s : string) :
  String.prefix p s = true <-> exists post, s = p ++ post.
Proof.
  revert s. induction p as [| c p IH]; intros s.
  - split; [intros _; now exists s | now destruct s].
  - destruct s as [| d s]; cbn [String.prefix].
    + split; [discriminate | intros [post H]; discriminate].
    + destruct (ascii_dec c d) as [<- | Hne].
      * rewrite IH. split; intros [post H]; exists post.
        -- now rewrite H.
        -- now injection H.
      * split; [discriminate |]. intros [post H]. injection H as H _.
        now subst.
Qed.

Lemma contains_spec (p s : string) : contains p s = true <-> occurs_in p s.
Proof.
  induction s as [| c s IH].
  - cbn [contains]. rewrite orb_false_r, prefix_spec. split.
    + intros [post H]. now exists "", post.
    + intros [[| d pre] [post H]]; [now exists post | discriminate].
  - cbn [contains]. rewrite orb_true_iff, prefix_spec, IH. split.
    + intros [[post H] | (pre & post & H)].
      * now exists "", post.
      * exists (String c pre), post. now rewrite H.
    + intros ([| d pre] & post & H).
      * left. now exists post.
      * right. injection H as _ H. now exists pre, post.
Qed.

Lemma contains_false (p s : string) : contains p s = false <-> ~ occurs_in p s.
Proof.
  rewrite <- contains_spec. destruct (contains p s); split; easy.
Qed.

(** ** First match in a list *)

Lemma find_first_matching (patterns : list string) (command p : string) :
  List.find (fun pattern => contains pattern command) patterns = Some p
  <-> first_matching patterns command p.
Proof.
  induction patterns as [| x l IH]; cbn [List.find].
  - split; [discriminate |]. intros ([| ? ?] & after & H & _); discriminate.
  - destruct (contains x command) eqn:Hx.
    + split.
      * intros [= ->]. exists [], l. split; [reflexivity |].
        split; [now apply contains_spec |]. intros q Hq. inversion Hq.
      * intros ([| y before] & after & H & Hp & Hbefore).
        -- now injection H as -> _.
        -- injection H as -> _. exfalso.
           apply (Hbefore y); [left | now apply contains_spec].
    + rewrite IH. split.
      * intros (before & after & -> & Hp & Hbefore).
        exists (x :: before), after. split; [reflexivity |].
        split; [assumption |]. intros q Hq.
        apply elem_of_cons in Hq as [-> | Hq]; [now apply contains_false | auto].
      * intros ([| y before] & after & H & Hp & Hbefore).
        -- injection H as -> _. apply contains_spec in Hp. congruence.
        -- injection H as -> ->. exists before, after.
           split; [reflexivity |]. split; [assumption |].
           intros q Hq. apply Hbefore. now right.
Qed.

Lemma find_exists (patterns : list string) (command : string) :
  (exists p, p ∈ patterns /\ occurs_in p command) ->
  exists p, List.find (fun pattern => contains pattern command) patterns = Some p.
Proof.
  intros (p & Hin & Hp).
  destruct (List.find _ patterns) as [q |] eqn:Hfind; [now exists q |].
  exfalso. apply list_elem_of_In in Hin.
  pose proof (List.find_none _ _ Hfind p Hin) as Hnone. cbn in Hnone.
  apply contains_spec in Hp. congruence.
Qed.

(** ** The gate, step by step *)

Lemma gate_tokenizes (command : string) :
  within_limit command ->
  is_command_safe command
  = let? parts := rmap (List.map lower) (shlex.split command) in
    match blocked_command parts with
    | Some p0 => Ok (false, "Blocked command: " ++ p0)
    | None =>
        match List.find (fun pattern => contains pattern command) BLOCKED_PATTERNS with
        | Some pattern => Ok (false, "Blocked pattern detected: " ++ pattern)
        | None =>
            if existsb (fun char => contains char command) ["$("; "`"; "{"; "}"]
            then Ok (false, "Command contains potentially dangerous characters")
            else Ok (true, "")
        end
    end.
Proof.
  intros Hlen. unfold is_command_safe, is_command_safe_with.
  destruct (Z.ltb_spec MAX_COMMAND_LENGTH (Z.of_nat (String.length command)));
    [unfold within_limit in Hlen; lia |].
  now rewrite split_lower.
Qed.

Lemma blocked_command_allowed (parts : list string) :
  first_token_allowed parts -> blocked_command (List.map lower parts) = None.
Proof.
  intros H. destruct parts as [| t rest]; [reflexivity |].
  cbn [List.map blocked_command]. rewrite bool_decide_eq_false_2; [reflexivity |].
  now apply H.
Qed.

(** ** Claims about the gate *)

(** C1 (the code at the failing input): on [unclosed_quote], whose double
    quote is never closed and which is well within the length limit,
    the gate does not return a decision: [shlex.split] raises ValueError,
    [is_command_safe] lets it through, and so does [execute_bash_command],
    which calls the gate outside its [try] block; no subprocess is spawned
    and no result dictionary is returned. *)
Theorem unclosed_quote_raises :
  within_limit unclosed_quote
  /\ is_command_safe unclosed_quote = Raise (ValueError "No closing quotation")
  /\ forall decode h working_dir s,
       execute_bash_command decode h unclosed_quote working_dir s
       = (Done (Raise (ValueError "No closing quotation")), s).
Proof.
  split; [unfold within_limit; vm_compute; discriminate |].
  split; [reflexivity |].
  intros decode h working_dir s. reflexivity.
Qed.

(** Whenever tokenizing a command within the length limit fails, the failure
    is the outcome of the gate and of the whole call. *)
Lemma tokenizer_failure_propagates (command : string) (e : exn) :
  within_limit command ->
  shlex.split command = Raise e ->
  is_command_safe command = Raise e
  /\ forall decode h working_dir s,
       execute_bash_command decode h command working_dir s
       = (Done (Raise e), s).
Proof.
  intros Hlen Hsplit.
  assert (Hgate : is_command_safe command = Raise e).
  { rewrite gate_tokenizes by assumption. now rewrite Hsplit. }
  split; [assumption |].
  intros decode h working_dir s.
  unfold execute_bash_command, bind, lift. now rewrite Hgate.
Qed.

(** C2: a command within the length limit whose first token, as split by
    [shlex] and then lower-cased, is in [BLOCKED_COMMANDS] is rejected,
    whatever tokens follow, and the reason is "Blocked command: " followed
    by that lower-cased token. *)
Theorem blocked_first_token_rejected (command t : string) (rest : list string) :
  within_limit command ->
  shlex.split command = Ok (t :: rest) ->
  lower t ∈ BLOCKED_COMMANDS ->
  is_command_safe command = Ok (false, "Blocked command: " ++ lower t).
Proof.
  intros Hlen Hsplit Hblocked.
  rewrite gate_tokenizes by assumption. rewrite Hsplit.
  cbn [rmap rbind List.map blocked_command].
  now rewrite bool_decide_eq_true_2.
Qed.

Lemma blocked_first_token_rejected_witness :
  within_limit "SuDo 'apt update' -y"
  /\ shlex.split "SuDo 'apt update' -y" = Ok ["SuDo"; "apt update"; "-y"]
  /\ lower "SuDo" ∈ BLOCKED_COMMANDS
  /\ is_command_safe "SuDo 'apt update' -y" = Ok (false, "Blocked command: sudo").
Proof.
  assert (H1 : within_limit "SuDo 'apt update' -y")
    by (unfold within_limit; vm_compute; discriminate).
  assert (H2 : shlex.split "SuDo 'apt update' -y" = Ok ["SuDo"; "apt update"; "-y"])
    by reflexivity.
  assert (H3 : lower "SuDo" ∈ BLOCKED_COMMANDS)
    by (apply (bool_decide_unpack _); vm_compute; exact I).
  exact (conj H1 (conj H2 (conj H3
           (blocked_first_token_rejected _ _ _ H1 H2 H3)))).
Defined.

Lemma gate_pattern_found (command p : string) (parts : list string) :
  within_limit command ->
  shlex.split command = Ok parts ->
  first_token_allowed parts ->
  List.find (fun pattern => contains pattern command) BLOCKED_PATTERNS = Some p ->
  is_command_safe command = Ok (false, "Blocked pattern detected: " ++ p).
Proof.
  intros Hlen Hsplit Hfirst Hfind.
  rewrite gate_tokenizes by assumption. rewrite Hsplit.
  cbn [rmap rbind]. rewrite blocked_command_allowed by assumption.
  now rewrite Hfind.
Qed.

(** C3: a command within the length limit, whose first token is not blocked,
    and in which some entry of [BLOCKED_PATTERNS] occurs as a substring at
    any position, is rejected; the reason is "Blocked pattern detected: "
    followed by the first entry of the list, in list order, that occurs in
    the command. *)
Theorem blocked_pattern_rejected (command : string) (parts : list string) :
  within_limit command ->
  shlex.split command = Ok parts ->
  first_token_allowed parts ->
  (exists p, p ∈ BLOCKED_PATTERNS /\ occurs_in p command) ->
  exists p,
    first_matching BLOCKED_PATTERNS command p
    /\ is_command_safe command = Ok (false, "Blocked pattern detected: " ++ p).
Proof.
  intros Hlen Hsplit Hfirst Hsome.
  destruct (find_exists _ _ Hsome) as [p Hfind].
  exists p. split.
  - now apply find_first_matching.
  - now apply (gate_pattern_found command p parts).
Qed.

(** C8: a command longer than [MAX_COMMAND_LENGTH] is rejected with a reason
    that cites the limit, and the tokenizer plays no part in it: the gate
    gives that answer with any tokenizer in the place of [shlex.split], so
    also for a command on which tokenizing would fail. *)
Theorem over_long_rejected (command : string) :
  MAX_COMMAND_LENGTH < Z.of_nat (String.length command) ->
  is_command_safe command
  = Ok (false, "Command too long (max 1000 characters)")
  /\ forall split,
       is_command_safe_with split command
       = Ok (false, "Command too long (max 1000 characters)").
Proof.
  intros Hlen.
  assert (H : forall split, is_command_safe_with split command
                            = Ok (false, "Command too long (max 1000 characters)")).
  { intros split. unfold is_command_safe_with.
    now destruct (Z.ltb_spec MAX_COMMAND_LENGTH (Z.of_nat (String.length command)));
      [| lia]. }
  split; [apply H | exact H].
Qed.

Lemma over_long_rejected_witness :
  MAX_COMMAND_LENGTH < Z.of_nat (String.length over_long_unclosed)
  /\ shlex.split (lower over_long_unclosed) = Raise (ValueError "No closing quotation")
  /\ is_command_safe over_long_unclosed
     = Ok (false, "Command too long (max 1000 characters)").
Proof.
  assert (H1 : MAX_COMMAND_LENGTH < Z.of_nat (String.length over_long_unclosed))
    by (vm_compute; reflexivity).
  assert (H2 : shlex.split (lower over_long_unclosed)
               = Raise (ValueError "No closing quotation"))
    by (vm_compute; reflexivity).
  exact (conj H1 (conj H2 (proj1 (over_long_rejected _ H1)))).
Defined.

Lemma blocked_pattern_rejected_witness :
  within_limit "echo a && echo b"
  /\ shlex.split "echo a && echo b" = Ok ["echo"; "a"; "&&"; "echo"; "b"]
  /\ first_token_allowed ["echo"; "a"; "&&"; "echo"; "b"]
  /\ (exists p, p ∈ BLOCKED_PATTERNS /\ occurs_in p "echo a && echo b")
  /\ exists p,
       first_matching BLOCKED_PATTERNS "echo a && echo b" p
       /\ is_command_safe "echo a && echo b"
          = Ok (false, "Blocked pattern detected: " ++ p).
Proof.
  assert (H1 : within_limit "echo a && echo b")
    by (unfold within_limit; vm_compute; discriminate).
  assert (H2 : shlex.split "echo a && echo b" = Ok ["echo"; "a"; "&&"; "echo"; "b"])
    by reflexivity.
  assert (H3 : first_token_allowed ["echo"; "a"; "&&"; "echo"; "b"]).
  { intros t [= <-]. apply (bool_decide_eq_false_1 _). vm_compute. reflexivity. }
  assert (H4 : exists p, p ∈ BLOCKED_PATTERNS /\ occurs_in p "echo a && echo b").
  { exists "&&". split; [left | now exists "echo a ", " echo b"]. }
  exact (conj H1 (conj H2 (conj H3 (conj H4
           (blocked_pattern_rejected _ _ H1 H2 H3 H4))))).
Defined.

Lemma find_after_before (patterns : list string) (command p : string) :
  p ∈ patterns ->
  occurs_in p command ->
  (forall q, q ∈ patterns_before p patterns -> ~ occurs_in q command) ->
  List.find (fun pattern => contains pattern command) patterns = Some p.
Proof.
  intros Hin Hp. induction patterns as [| x l IH]; intros Hbefore.
  - inversion Hin.
  - cbn [List.find patterns_before] in *.
    destruct (String.eqb_spec x p) as [-> | Hne].
    + apply contains_spec in Hp. now rewrite Hp.
    + assert (Hx : contains x command = false).
      { apply contains_false, Hbefore. left. }
      rewrite Hx. apply IH.
      * apply elem_of_cons in Hin as [-> | Hin]; [congruence | assumption].
      * intros q Hq. apply Hbefore. now right.
Qed.

(** C10 as stated fails: [cat notes.txt | wc] is within the limit, its first
    token is not blocked and it contains a period, yet the reason names the
    pipe, which comes before the period in [BLOCKED_PATTERNS]. *)
Lemma period_reason_counterexample :
  within_limit "cat notes.txt | wc"
  /\ shlex.split "cat notes.txt | wc" = Ok ["cat"; "notes.txt"; "|"; "wc"]
  /\ first_token_allowed ["cat"; "notes.txt"; "|"; "wc"]
  /\ occurs_in "." "cat notes.txt | wc"
  /\ is_command_safe "cat notes.txt | wc" = Ok (false, "Blocked pattern detected: |")
  /\ is_command_safe "cat notes.txt | wc" <> Ok (false, "Blocked pattern detected: .").
Proof.
  split; [unfold within_limit; vm_compute; discriminate |].
  split; [reflexivity |].
  split.
  { intros t [= <-]. apply (bool_decide_eq_false_1 _). vm_compute. reflexivity. }
  split; [now exists "cat notes", "txt | wc" |].
  split; [reflexivity | discriminate].
Qed.

(** C10 (amended): a command within the length limit, with an unblocked first
    token, that contains a period is rejected; the reason names the first
    entry of [BLOCKED_PATTERNS] that occurs in the command, which is the
    period whenever none of the entries listed before it occurs. *)
Theorem period_rejected (command : string) (parts : list string) :
  within_limit command ->
  shlex.split command = Ok parts ->
  first_token_allowed parts ->
  occurs_in "." command ->
  exists p,
    first_matching BLOCKED_PATTERNS command p
    /\ is_command_safe command = Ok (false, "Blocked pattern detected: " ++ p)
    /\ ((forall q, q ∈ patterns_before "." BLOCKED_PATTERNS -> ~ occurs_in q command)
        -> p = ".").
Proof.
  intros Hlen Hsplit Hfirst Hdot.
  assert (Hin : "." ∈ BLOCKED_PATTERNS).
  { apply list_elem_of_In. unfold BLOCKED_PATTERNS. cbn. tauto. }
  destruct (find_exists BLOCKED_PATTERNS command) as [p Hfind].
  { now exists ".". }
  exists p. split; [now apply find_first_matching |].
  split; [now apply (gate_pattern_found command p parts) |].
  intros Hbefore.
  pose proof (find_after_before _ _ _ Hin Hdot Hbefore) as Hdotfirst.
  congruence.
Qed.

Lemma period_rejected_witness :
  within_limit "echo 3.14"
  /\ shlex.split "echo 3.14" = Ok ["echo"; "3.14"]
  /\ first_token_allowed ["echo"; "3.14"]
  /\ occurs_in "." "echo 3.14"
  /\ exists p,
       first_matching BLOCKED_PATTERNS "echo 3.14" p
       /\ is_command_safe "echo 3.14" = Ok (false, "Blocked pattern detected: " ++ p)
       /\ ((forall q, q ∈ patterns_before "." BLOCKED_PATTERNS
                      -> ~ occurs_in q "echo 3.14")
           -> p = ".").
Proof.
  assert (H1 : within_limit "echo 3.14")
    by (unfold within_limit; vm_compute; discriminate).
  assert (H2 : shlex.split "echo 3.14" = Ok ["echo"; "3.14"]) by reflexivity.
  assert (H3 : first_token_allowed ["echo"; "3.14"]).
  { intros t [= <-]. apply (bool_decide_eq_false_1 _). vm_compute. reflexivity. }
  assert (H4 : occurs_in "." "echo 3.14") by now exists "echo 3", "14".
  exact (conj H1 (conj H2 (conj H3 (conj H4 (period_rejected _ _ H1 H2 H3 H4))))).
Defined.

(** The two harmless commands of the claim are rejected for the period. *)
Example echo_pi_rejected :
  is_command_safe "echo 3.14" = Ok (false, "Blocked pattern detected: .").
Proof. reflexivity. Qed.

Example cat_notes_rejected :
  is_command_safe "cat notes.txt" = Ok (false, "Blocked pattern detected: .").
Proof. reflexivity. Qed.

(** ** The runner, step by step *)

#[local] Arguments resolve : simpl never.

Lemma resolve_given (h : Host) (wd : option string) (d : string) :
  given wd = Some d -> resolve h wd = Ok d.
Proof. unfold resolve. now intros ->. Qed.

Lemma completes_within_spec (c : child) (timeout : Z) :
  completes_within c timeout = true
  <-> exits_within c timeout = true /\ released_within c timeout = true.
Proof. unfold completes_within. apply andb_true_iff. Qed.

Section RunnerFacts.

Variable decode : list Byte.byte -> string.
Variable h : Host.
Variable cmd : string.
Variable wd : option string.

Lemma execute_approved (reason : string) (s : run_state) :
  is_command_safe cmd = Ok (true, reason) ->
  valid_working_dir h wd ->
  execute_bash_command decode h cmd wd s
  = run_command decode h cmd wd s.
Proof.
  intros Hgate Hdir. unfold execute_bash_command, bind, lift. rewrite Hgate.
  cbn [negb]. unfold valid_working_dir in Hdir.
  destruct (given wd) as [d |]; [| reflexivity].
  destruct Hdir as [-> ->]. reflexivity.
Qed.

(** Nothing is spawned when [os.getcwd] raises for the PWD of the child:
    the handler of the [try] block calls it again, and this time the
    exception leaves the function. *)
Lemma run_unresolved (e : exn) (s : run_state) :
  resolve h wd = Raise e ->
  run_command decode h cmd wd s = (Done (Raise e), s).
Proof.
  intros Hres. unfold run_command, except_exception, bind, lift.
  now rewrite Hres.
Qed.

Lemma run_spawn_fails (dir : string) (e : exn) (s : run_state) :
  resolve h wd = Ok dir ->
  spawn h cmd wd (child_env h dir) = Raise e ->
  run_command decode h cmd wd s
  = (Done (Ok (failure ("Execution error: " ++ exn_str e) cmd dir)),
     {| trace := trace s ++ [Spawn cmd wd (child_env h dir)];
        process := process s |}).
Proof.
  intros Hres Hspawn.
  unfold run_command, except_exception, bind, create_subprocess_shell, bind,
    log, lift, ret.
  rewrite Hres. cbn. rewrite Hspawn. reflexivity.
Qed.

Lemma run_completes (dir : string) (c : child) (s : run_state) :
  resolve h wd = Ok dir ->
  spawn h cmd wd (child_env h dir) = Ok c ->
  completes_within c TIMEOUT_SECONDS = true ->
  run_command decode h cmd wd s
  = (Done (Ok {| success := returncode c =? 0;
                 stdout := strip (decode (child_stdout c));
                 stderr := strip (decode (child_stderr c));
                 return_code := returncode c;
                 command := cmd;
                 working_dir := dir;
                 error := if negb (returncode c =? 0)
                          then Some ("Command failed with return code "
                                     ++ str_of_int (returncode c))
                          else None |}),
     {| trace := trace s ++ [Spawn cmd wd (child_env h dir);
                             Communicate TIMEOUT_SECONDS];
        process := Reaped |}).
Proof.
  intros Hres Hspawn Hdone.
  unfold run_command, except_exception, except_timeout, bind,
    create_subprocess_shell, wait_for_communicate, bind, log, lift,
    set_process, raise, ret.
  rewrite Hres. cbn. rewrite Hspawn. cbn. rewrite Hdone. cbn.
  now rewrite <- !app_assoc.
Qed.

(** At the deadline: the shell is killed, unless it has exited already, and
    waited for; the wait resumes when the shell had exited or when the
    commands it started let go of the pipes. *)
Lemma run_timeout (dir : string) (c : child) (s : run_state) :
  resolve h wd = Ok dir ->
  spawn h cmd wd (child_env h dir) = Ok c ->
  completes_within c TIMEOUT_SECONDS = false ->
  exits_within c TIMEOUT_SECONDS = true \/ is_Some (released_after c) ->
  run_command decode h cmd wd s
  = (Done (Ok (failure "Command timed out after 30 seconds" cmd dir)),
     {| trace := trace s ++ [Spawn cmd wd (child_env h dir);
                             Communicate TIMEOUT_SECONDS; Kill; Wait];
        process := Reaped |}).
Proof.
  intros Hres Hspawn Hlate Hwait.
  unfold run_command, except_exception, except_timeout, bind,
    create_subprocess_shell, wait_for_communicate, kill, wait, bind, log, lift,
    set_process, raise, ret.
  rewrite Hres. cbn. rewrite Hspawn. cbn. rewrite Hlate. cbn.
  destruct (exits_within c TIMEOUT_SECONDS) eqn:Hexit; cbn.
  - now rewrite <- !app_assoc.
  - destruct Hwait as [Hwait | Hwait]; [discriminate |].
    rewrite bool_decide_eq_true_2 by assumption. cbn.
    now rewrite <- !app_assoc.
Qed.

(** At the deadline, with the shell still running and a command that never
    lets go of the pipes: the wait after the kill never resumes. *)
Lemma run_hangs (dir : string) (c : child) (s : run_state) :
  resolve h wd = Ok dir ->
  spawn h cmd wd (child_env h dir) = Ok c ->
  exits_within c TIMEOUT_SECONDS = false ->
  released_after c = None ->
  run_command decode h cmd wd s
  = (Pending,
     {| trace := trace s ++ [Spawn cmd wd (child_env h dir);
                             Communicate TIMEOUT_SECONDS; Kill; Wait];
        process := Killed |}).
Proof.
  intros Hres Hspawn Hexit Hheld.
  unfold run_command, except_exception, except_timeout, bind,
    create_subprocess_shell, wait_for_communicate, kill, wait, bind, log, lift,
    set_process, raise, ret, completes_within.
  rewrite Hres. cbn. rewrite Hspawn. cbn. rewrite Hexit. cbn.
  rewrite Hheld. rewrite bool_decide_eq_false_2 by (intros [x Hx]; discriminate).
  now rewrite <- !app_assoc.
Qed.

End RunnerFacts.

(** ** The ways through a call *)

Lemma run_command_cases (decode : list Byte.byte -> string) (h : Host)
    (cmd : string) (wd : option string) (s : run_state) :
  (exists e,
     resolve h wd = Raise e
     /\ run_command decode h cmd wd s = (Done (Raise e), s))
  \/ exists dir,
       resolve h wd = Ok dir
       /\ ((exists e,
              spawn h cmd wd (child_env h dir) = Raise e
              /\ run_command decode h cmd wd s
                 = (Done (Ok (failure ("Execution error: " ++ exn_str e) cmd dir)),
                    {| trace := trace s ++ [Spawn cmd wd (child_env h dir)];
                       process := process s |}))
           \/ (exists c,
                 spawn h cmd wd (child_env h dir) = Ok c
                 /\ completes_within c TIMEOUT_SECONDS = true
                 /\ run_command decode h cmd wd s
                    = (Done (Ok {| success := returncode c =? 0;
                                   stdout := strip (decode (child_stdout c));
                                   stderr := strip (decode (child_stderr c));
                                   return_code := returncode c;
                                   command := cmd;
                                   working_dir := dir;
                                   error := if negb (returncode c =? 0)
                                            then Some ("Command failed with return code "
                                                       ++ str_of_int (returncode c))
                                            else None |}),
                       {| trace := trace s ++ [Spawn cmd wd (child_env h dir);
                                               Communicate TIMEOUT_SECONDS];
                          process := Reaped |}))
           \/ (exists c,
                 spawn h cmd wd (child_env h dir) = Ok c
                 /\ completes_within c TIMEOUT_SECONDS = false
                 /\ (exits_within c TIMEOUT_SECONDS = true
                     \/ is_Some (released_after c))
                 /\ run_command decode h cmd wd s
                    = (Done (Ok (failure "Command timed out after 30 seconds"
                                         cmd dir)),
                       {| trace := trace s ++ [Spawn cmd wd (child_env h dir);
                                               Communicate TIMEOUT_SECONDS;
                                               Kill; Wait];
                          process := Reaped |}))
           \/ (exists c,
                 spawn h cmd wd (child_env h dir) = Ok c
                 /\ exits_within c TIMEOUT_SECONDS = false
                 /\ released_after c = None
                 /\ run_command decode h cmd wd s
                    = (Pending,
                       {| trace := trace s ++ [Spawn cmd wd (child_env h dir);
                                               Communicate TIMEOUT_SECONDS;
                                               Kill; Wait];
                          process := Killed |}))).
Proof.
  destruct (resolve h wd) as [dir | e] eqn:Hres.
  2:{ left. exists e. split; [reflexivity |]. now apply run_unresolved. }
  right. exists dir. split; [reflexivity |].
  destruct (spawn h cmd wd (child_env h dir)) as [c | e] eqn:Hspawn.
  2:{ left. exists e. split; [reflexivity |].
      exact (run_spawn_fails _ _ _ _ _ _ _ Hres Hspawn). }
  right.
  destruct (completes_within c TIMEOUT_SECONDS) eqn:Hdone.
  { left. exists c. split; [reflexivity |]. split; [exact Hdone |].
    exact (run_completes _ _ _ _ _ _ _ Hres Hspawn Hdone). }
  right.
  destruct (exits_within c TIMEOUT_SECONDS) eqn:Hexit.
  { left. exists c. split; [reflexivity |]. split; [exact Hdone |].
    split; [left; exact Hexit |].
    apply (run_timeout _ _ _ _ _ _ _ Hres Hspawn Hdone). now left. }
  destruct (released_after c) as [t |] eqn:Hheld.
  - left. exists c. split; [reflexivity |]. split; [exact Hdone |].
    split; [right; rewrite Hheld; eauto |].
    apply (run_timeout _ _ _ _ _ _ _ Hres Hspawn Hdone).
    right. rewrite Hheld. eauto.
  - right. exists c. split; [reflexivity |]. split; [exact Hexit |].
    split; [exact Hheld |].
    exact (run_hangs _ _ _ _ _ _ _ Hres Hspawn Hexit Hheld).
Qed.

(** The three ways out of [execute_bash_command] before the [try] block, and
    the way into it. *)
Lemma execute_cases (decode : list Byte.byte -> string) (h : Host)
    (cmd : string) (wd : option string) (s : run_state) :
  (exists e,
     execute_bash_command decode h cmd wd s = (Done (Raise e), s)
     /\ (is_command_safe cmd = Raise e
         \/ (given wd = None /\ getcwd h = Raise e)
         \/ (exists d,
               given wd = Some d
               /\ (path_exists h d = Raise e
                   \/ (path_exists h d = Ok true /\ path_is_dir h d = Raise e)))))
  \/ (exists err dir,
        resolve h wd = Ok dir
        /\ execute_bash_command decode h cmd wd s
           = (Done (Ok (failure err cmd dir)), s))
  \/ (exists reason,
        is_command_safe cmd = Ok (true, reason)
        /\ valid_working_dir h wd
        /\ execute_bash_command decode h cmd wd s = run_command decode h cmd wd s).
Proof.
  destruct (is_command_safe cmd) as [[[] reason] | e] eqn:Hgate.
  - destruct (given wd) as [d |] eqn:Hgiven.
    + destruct (path_exists h d) as [[] | e] eqn:Hex;
        [destruct (path_is_dir h d) as [[] | e] eqn:Hdir | |].
      * right; right. exists reason. split; [reflexivity |].
        assert (Hvalid : valid_working_dir h wd)
          by (unfold valid_working_dir; rewrite Hgiven; auto).
        split; [assumption |]. now apply (execute_approved _ _ _ _ reason).
      * right; left. eexists _, d. split; [now apply resolve_given |].
        unfold execute_bash_command, bind, lift. rewrite Hgate. cbn [negb].
        rewrite Hgiven, Hex. cbn [negb]. rewrite Hdir. reflexivity.
      * left. exists e. split.
        -- unfold execute_bash_command, bind, lift. rewrite Hgate. cbn [negb].
           rewrite Hgiven, Hex. cbn [negb]. now rewrite Hdir.
        -- right; right. exists d. split; [reflexivity |]. right. now split.
      * right; left. eexists _, d. split; [now apply resolve_given |].
        unfold execute_bash_command, bind, lift. rewrite Hgate. cbn [negb].
        rewrite Hgiven, Hex. reflexivity.
      * left. exists e. split.
        -- unfold execute_bash_command, bind, lift. rewrite Hgate. cbn [negb].
           now rewrite Hgiven, Hex.
        -- right; right. exists d. split; [reflexivity |]. now left.
    + right; right. exists reason. split; [reflexivity |].
      assert (Hvalid : valid_working_dir h wd)
        by (unfold valid_working_dir; now rewrite Hgiven).
      split; [assumption |]. now apply (execute_approved _ _ _ _ reason).
  - destruct (resolve h wd) as [dir | e] eqn:Hres.
    + right; left. eexists _, dir. split; [reflexivity |].
      unfold execute_bash_command, bind, lift. rewrite Hgate. cbn [negb].
      now rewrite Hres.
    + left. exists e. split.
      * unfold execute_bash_command, bind, lift. rewrite Hgate. cbn [negb].
        now rewrite Hres.
      * right; left. unfold resolve in Hres.
        destruct (given wd); [discriminate | now split].
  - left. exists e. split; [| now left].
    unfold execute_bash_command, bind, lift. now rewrite Hgate.
Qed.

(** ** Claims about the runner *)

(** C7: when the gate rejects a command, [execute_bash_command] returns at
    once the failure dictionary (success false, return code -1, empty stdout
    and stderr, the rejection reason in the error) and the state of the call
    is untouched: nothing is spawned.  The dictionary reports the working
    directory given or else the current one, [dir]. *)
Theorem rejected_command_not_spawned (decode : list Byte.byte -> string)
    (h : Host) (cmd reason dir : string) (wd : option string) (s : run_state) :
  is_command_safe cmd = Ok (false, reason) ->
  resolve h wd = Ok dir ->
  execute_bash_command decode h cmd wd s
  = (Done (Ok {| success := false;
                 stdout := "";
                 stderr := "";
                 return_code := -1;
                 error := Some ("Command blocked for security: " ++ reason);
                 command := cmd;
                 working_dir := dir |}),
     s).
Proof.
  intros Hgate Hres.
  unfold execute_bash_command, bind, lift, ret.
  rewrite Hgate. cbn [negb]. rewrite Hres.
  reflexivity.
Qed.

Lemma rejected_command_not_spawned_witness :
  is_command_safe "rm -rf /" = Ok (false, "Blocked command: rm")
  /\ resolve sample_host None = Ok "/srv"
  /\ execute_bash_command sample_decode sample_host "rm -rf /" None initial
     = (Done (Ok {| success := false;
                    stdout := "";
                    stderr := "";
                    return_code := -1;
                    error := Some "Command blocked for security: Blocked command: rm";
                    command := "rm -rf /";
                    working_dir := "/srv" |}),
        initial).
Proof.
  assert (H : is_command_safe "rm -rf /" = Ok (false, "Blocked command: rm"))
    by reflexivity.
  assert (H2 : resolve sample_host None = Ok "/srv") by reflexivity.
  exact (conj H (conj H2
           (rejected_command_not_spawned sample_decode sample_host
              "rm -rf /" _ _ None initial H H2))).
Defined.

(** C6 as stated fails: with a blocked command, a working directory that
    does not exist is never looked at; the error is the gate's, and it does
    not say that the directory does not exist. *)
Lemma missing_directory_counterexample :
  path_exists sample_host "/path/does/not/exist" = Ok false
  /\ execute_bash_command sample_decode sample_host "rm -rf /"
       (Some "/path/does/not/exist") initial
     = (Done (Ok (failure "Command blocked for security: Blocked command: rm"
                          "rm -rf /" "/path/does/not/exist")),
        initial)
  /\ ~ occurs_in "does not exist"
         "Command blocked for security: Blocked command: rm".
Proof.
  split; [reflexivity |]. split; [reflexivity |].
  apply contains_false. reflexivity.
Qed.

(** C6 (amended): for a command that the gate approves and a working
    directory that is given (a non-empty string), a path that does not exist
    yields the failure "Working directory does not exist: ...", a path that
    exists and is not a directory yields "Working directory path is not a
    directory: ...", the two reasons differ, both results have success false
    and return code -1, and the state of the call is untouched: the runner
    is not invoked. *)
Theorem invalid_working_dir_rejected (decode : list Byte.byte -> string)
    (h : Host) (cmd reason d : string) (s : run_state) :
  is_command_safe cmd = Ok (true, reason) ->
  d <> "" ->
  (path_exists h d = Ok false ->
   execute_bash_command decode h cmd (Some d) s
   = (Done (Ok {| success := false; stdout := ""; stderr := ""; return_code := -1;
                  error := Some ("Working directory does not exist: " ++ d);
                  command := cmd; working_dir := d |}), s))
  /\ (path_exists h d = Ok true -> path_is_dir h d = Ok false ->
      execute_bash_command decode h cmd (Some d) s
      = (Done (Ok {| success := false; stdout := ""; stderr := "";
                     return_code := -1;
                     error := Some ("Working directory path is not a directory: " ++ d);
                     command := cmd; working_dir := d |}), s))
  /\ "Working directory does not exist: " ++ d
     <> "Working directory path is not a directory: " ++ d.
Proof.
  intros Hgate Hd.
  assert (Hgiven : given (Some d) = Some d).
  { cbn. destruct (String.eqb_spec d ""); [contradiction | reflexivity]. }
  repeat split.
  - intros Hex. unfold execute_bash_command, bind, lift. rewrite Hgate.
    cbn [negb]. rewrite Hgiven, Hex. reflexivity.
  - intros Hex Hdir. unfold execute_bash_command, bind, lift. rewrite Hgate.
    cbn [negb]. rewrite Hgiven, Hex. cbn [negb]. rewrite Hdir. reflexivity.
  - intros H. discriminate H.
Qed.

Lemma invalid_working_dir_rejected_witness :
  is_command_safe "pwd" = Ok (true, "")
  /\ "/path/does/not/exist" <> ""
  /\ path_exists sample_host "/path/does/not/exist" = Ok false
  /\ execute_bash_command sample_decode sample_host "pwd"
       (Some "/path/does/not/exist") initial
     = (Done (Ok {| success := false; stdout := ""; stderr := "";
                    return_code := -1;
                    error := Some "Working directory does not exist: /path/does/not/exist";
                    command := "pwd"; working_dir := "/path/does/not/exist" |}),
        initial)
  /\ path_exists sample_host "/etc/hostname" = Ok true
  /\ path_is_dir sample_host "/etc/hostname" = Ok false
  /\ execute_bash_command sample_decode sample_host "pwd"
       (Some "/etc/hostname") initial
     = (Done (Ok {| success := false; stdout := ""; stderr := "";
                    return_code := -1;
                    error := Some "Working directory path is not a directory: /etc/hostname";
                    command := "pwd"; working_dir := "/etc/hostname" |}),
        initial).
Proof.
  assert (H1 : is_command_safe "pwd" = Ok (true, "")) by reflexivity.
  assert (H2 : "/path/does/not/exist" <> "") by discriminate.
  assert (H3 : path_exists sample_host "/path/does/not/exist" = Ok false)
    by reflexivity.
  assert (H4 : "/etc/hostname" <> "") by discriminate.
  assert (H5 : path_exists sample_host "/etc/hostname" = Ok true) by reflexivity.
  assert (H6 : path_is_dir sample_host "/etc/hostname" = Ok false) by reflexivity.
  exact (conj H1 (conj H2 (conj H3 (conj
           (proj1 (invalid_working_dir_rejected sample_decode sample_host
                     "pwd" "" "/path/does/not/exist" initial H1 H2) H3)
           (conj H5 (conj H6
              (proj1 (proj2 (invalid_working_dir_rejected sample_decode
                               sample_host "pwd" "" "/etc/hostname" initial
                               H1 H4)) H5 H6))))))).
Defined.

(** At the deadline the call kills the shell and waits for it; when that
    wait resumes, the call returns the timed-out failure and the shell is
    reaped. *)
Lemma timeout_reported (decode : list Byte.byte -> string)
    (h : Host) (cmd reason dir : string) (wd : option string) (c : child) :
  is_command_safe cmd = Ok (true, reason) ->
  valid_working_dir h wd ->
  resolve h wd = Ok dir ->
  spawn h cmd wd (child_env h dir) = Ok c ->
  completes_within c TIMEOUT_SECONDS = false ->
  exits_within c TIMEOUT_SECONDS = true \/ is_Some (released_after c) ->
  execute_bash_command decode h cmd wd initial
  = (Done (Ok (failure "Command timed out after 30 seconds" cmd dir)),
     {| trace := [Spawn cmd wd (child_env h dir);
                  Communicate TIMEOUT_SECONDS; Kill; Wait];
        process := Reaped |}).
Proof.
  intros Hgate Hdir Hres Hspawn Hlate Hwait.
  rewrite (execute_approved _ _ _ _ _ _ Hgate Hdir).
  exact (run_timeout _ _ _ _ _ _ _ Hres Hspawn Hlate Hwait).
Qed.

(** When the shell is still running at the deadline and a command it
    started never lets go of the pipes, the call never returns: the kill
    reaches the shell alone and the wait that follows never resumes. *)
Lemma timeout_never_returns (decode : list Byte.byte -> string)
    (h : Host) (cmd reason dir : string) (wd : option string) (c : child) :
  is_command_safe cmd = Ok (true, reason) ->
  valid_working_dir h wd ->
  resolve h wd = Ok dir ->
  spawn h cmd wd (child_env h dir) = Ok c ->
  exits_within c TIMEOUT_SECONDS = false ->
  released_after c = None ->
  execute_bash_command decode h cmd wd initial
  = (Pending,
     {| trace := [Spawn cmd wd (child_env h dir);
                  Communicate TIMEOUT_SECONDS; Kill; Wait];
        process := Killed |}).
Proof.
  intros Hgate Hdir Hres Hspawn Hexit Hheld.
  rewrite (execute_approved _ _ _ _ _ _ Hgate Hdir).
  exact (run_hangs _ _ _ _ _ _ _ Hres Hspawn Hexit Hheld).
Qed.

(** C4 (the code at the failing input): [tail -f /dev/null] is approved by
    the gate and runs past any deadline.  Under a shell that forks its
    commands the call does not return the timed-out failure: it kills the
    shell, [tail] keeps both pipes open, and the wait after the kill never
    resumes, so the call never returns. *)
Theorem timeout_wait_never_resumes :
  is_command_safe "tail -f /dev/null" = Ok (true, "")
  /\ spawn sample_host "tail -f /dev/null" None (child_env sample_host "/srv")
     = Ok endless
  /\ exits_within endless TIMEOUT_SECONDS = false
  /\ released_after endless = None
  /\ forall decode,
       execute_bash_command decode sample_host "tail -f /dev/null" None initial
       = (Pending,
          {| trace := [Spawn "tail -f /dev/null" None (child_env sample_host "/srv");
                       Communicate TIMEOUT_SECONDS; Kill; Wait];
             process := Killed |}).
Proof.
  split; [reflexivity |]. split; [reflexivity |].
  split; [reflexivity |]. split; [reflexivity |].
  intros decode.
  apply (timeout_never_returns decode sample_host "tail -f /dev/null" ""
           "/srv" None endless); reflexivity || exact I.
Qed.

(** [sleep 60] under the same shell: the kill reaches the shell alone, the
    wait resumes once [sleep] has ended and closed the pipes, and the call
    returns the timed-out failure with the shell reaped. *)
Example timeout_returns_once_released :
  execute_bash_command sample_decode sample_host "sleep 60" (Some "/tmp") initial
  = (Done (Ok (failure "Command timed out after 30 seconds" "sleep 60" "/tmp")),
     {| trace := [Spawn "sleep 60" (Some "/tmp") (child_env sample_host "/tmp");
                  Communicate TIMEOUT_SECONDS; Kill; Wait];
        process := Reaped |}).
Proof.
  apply (timeout_reported sample_decode sample_host "sleep 60" "" "/tmp"
           (Some "/tmp")
           {| exit_after := Some 60000; released_after := Some 60000;
              child_stdout := []; child_stderr := []; returncode := 0 |});
    try reflexivity.
  - split; reflexivity.
  - right. cbn. eauto.
Qed.





Lemma child_env_dom (h : Host) (pwd : string) :
  dom (child_env h pwd) = ({[ "PATH"; "HOME"; "USER"; "PWD" ]} : gset string).
Proof.
  unfold child_env. rewrite !dom_insert_L, dom_singleton_L. set_solver.
Qed.

(** C9: when an approved command is executed (its working directory passed
    the validation), the one spawn of the call receives an environment
    whose variables are exactly PATH, HOME, USER and PWD: PWD is the
    resolved working directory [dir] (the one given, or the current
    directory when none is given), the three others carry the caller's value
    (the empty text when the caller has none), and any other variable of the
    caller is absent. *)
Theorem child_environment_minimal (decode : list Byte.byte -> string)
    (h : Host) (cmd reason dir : string) (wd : option string) :
  is_command_safe cmd = Ok (true, reason) ->
  valid_working_dir h wd ->
  resolve h wd = Ok dir ->
  exists env rest,
    trace (snd (execute_bash_command decode h cmd wd initial))
    = Spawn cmd wd env :: rest
    /\ (forall ev, ev ∈ rest -> is_spawn ev = false)
    /\ dom env = ({[ "PATH"; "HOME"; "USER"; "PWD" ]} : gset string)
    /\ env !! "PWD" = Some dir
    /\ (forall d, given wd = Some d -> dir = d)
    /\ (given wd = None -> getcwd h = Ok dir)
    /\ env !! "PATH" = Some (environ_get h "PATH")
    /\ env !! "HOME" = Some (environ_get h "HOME")
    /\ env !! "USER" = Some (environ_get h "USER")
    /\ (forall k, k ∉ ({[ "PATH"; "HOME"; "USER"; "PWD" ]} : gset string) ->
        env !! k = None).
Proof.
  intros Hgate Hdir Hres.
  rewrite (execute_approved _ _ _ _ _ _ Hgate Hdir).
  exists (child_env h dir).
  assert (Htrace : exists rest,
    trace (snd (run_command decode h cmd wd initial))
    = Spawn cmd wd (child_env h dir) :: rest
    /\ forall ev, ev ∈ rest -> is_spawn ev = false).
  { destruct (run_command_cases decode h cmd wd initial)
      as [(e & He & _)
         | (dir' & Hres' & [(e & _ & Hout)
                           | [(c & _ & _ & Hout)
                             | [(c & _ & _ & _ & Hout) | (c & _ & _ & _ & Hout)]]])];
      [congruence | | | |];
      assert (dir' = dir) by congruence; subst dir'; rewrite Hout;
      eexists; (split; [reflexivity |]); intros ev Hev;
      apply list_elem_of_In in Hev; cbn in Hev;
      repeat (destruct Hev as [<- | Hev]; [reflexivity |]); destruct Hev. }
  destruct Htrace as (rest & Htrace & Hrest).
  exists rest. split; [exact Htrace |]. split; [exact Hrest |].
  split; [apply child_env_dom |].
  assert (Hnone : forall k,
    k ∉ ({[ "PATH"; "HOME"; "USER"; "PWD" ]} : gset string) ->
    child_env h dir !! k = None).
  { intros k Hk. apply not_elem_of_dom. now rewrite child_env_dom. }
  assert (Hgiven : forall d, given wd = Some d -> dir = d).
  { intros d Hd. rewrite (resolve_given h wd d Hd) in Hres. congruence. }
  assert (Hcwd : given wd = None -> getcwd h = Ok dir).
  { intros Hd. unfold resolve in Hres. now rewrite Hd in Hres. }
  unfold child_env in *.
  repeat split; try (by simplify_map_eq); assumption.
Qed.

Lemma child_environment_minimal_witness :
  is_command_safe "ls -la" = Ok (true, "")
  /\ valid_working_dir sample_host (Some "/tmp")
  /\ resolve sample_host (Some "/tmp") = Ok "/tmp"
  /\ environ sample_host !! "API_TOKEN" = Some "hunter2"
  /\ child_env sample_host "/tmp" !! "API_TOKEN" = None
  /\ exists env rest,
       trace (snd (execute_bash_command sample_decode sample_host "ls -la"
                     (Some "/tmp") initial))
       = Spawn "ls -la" (Some "/tmp") env :: rest
       /\ (forall ev, ev ∈ rest -> is_spawn ev = false)
       /\ dom env = ({[ "PATH"; "HOME"; "USER"; "PWD" ]} : gset string)
       /\ env !! "PWD" = Some "/tmp"
       /\ (forall d, given (Some "/tmp") = Some d -> "/tmp" = d)
       /\ (given (Some "/tmp") = None -> getcwd sample_host = Ok "/tmp")
       /\ env !! "PATH" = Some (environ_get sample_host "PATH")
       /\ env !! "HOME" = Some (environ_get sample_host "HOME")
       /\ env !! "USER" = Some (environ_get sample_host "USER")
       /\ (forall k, k ∉ ({[ "PATH"; "HOME"; "USER"; "PWD" ]} : gset string) ->
           env !! k = None).
Proof.
  assert (H1 : is_command_safe "ls -la" = Ok (true, "")) by reflexivity.
  assert (H2 : valid_working_dir sample_host (Some "/tmp"))
    by (split; reflexivity).
  assert (Hr : resolve sample_host (Some "/tmp") = Ok "/tmp") by reflexivity.
  assert (H3 : environ sample_host !! "API_TOKEN" = Some "hunter2")
    by (vm_compute; reflexivity).
  assert (H4 : child_env sample_host "/tmp" !! "API_TOKEN" = None)
    by (vm_compute; reflexivity).
  exact (conj H1 (conj H2 (conj Hr (conj H3 (conj H4
           (child_environment_minimal sample_decode sample_host "ls -la" ""
              "/tmp" (Some "/tmp") H1 H2 Hr)))))).
Defined.

(** ** The decisions of the gate *)

Lemma over_limit_or_within (command : string) :
  {MAX_COMMAND_LENGTH < Z.of_nat (String.length command)} + {within_limit command}.
Proof.
  unfold within_limit.
  destruct (Z_lt_le_dec MAX_COMMAND_LENGTH (Z.of_nat (String.length command)));
    [left | right]; assumption.
Qed.

Lemma gate_over_limit (command : string) :
  MAX_COMMAND_LENGTH < Z.of_nat (String.length command) ->
  is_command_safe command = Ok (false, "Command too long (max 1000 characters)").
Proof.
  intros Hlen. unfold is_command_safe, is_command_safe_with.
  now destruct (Z.ltb_spec MAX_COMMAND_LENGTH (Z.of_nat (String.length command)));
    [| lia].
Qed.

Lemma blocked_command_some (parts : list string) (p0 : string) :
  blocked_command (List.map lower parts) = Some p0 ->
  exists t rest, parts = t :: rest /\ p0 = lower t /\ lower t ∈ BLOCKED_COMMANDS.
Proof.
  destruct parts as [| t rest]; [discriminate |].
  cbn [List.map blocked_command]. case_bool_decide; [| discriminate].
  intros [= <-]. now exists t, rest.
Qed.

Lemma blocked_command_none (parts : list string) :
  blocked_command (List.map lower parts) = None <-> first_token_allowed parts.
Proof.
  split; [| apply blocked_command_allowed].
  destruct parts as [| t rest]; [intros _ t [=] |].
  cbn [List.map blocked_command]. case_bool_decide; [discriminate |].
  now intros _ t' [= <-].
Qed.

Lemma find_none_iff (patterns : list string) (command : string) :
  List.find (fun pattern => contains pattern command) patterns = None
  <-> forall p, p ∈ patterns -> ~ occurs_in p command.
Proof.
  split.
  - intros Hnone p Hin. apply contains_false.
    apply list_elem_of_In in Hin. exact (List.find_none _ _ Hnone p Hin).
  - intros Hall. destruct (List.find _ patterns) as [p |] eqn:Hfind; [| reflexivity].
    apply List.find_some in Hfind as [Hin Hp].
    apply list_elem_of_In in Hin. apply contains_spec in Hp.
    now destruct (Hall p Hin).
Qed.

(** Once no blocked pattern is found, of the four suspicious characters only
    the braces are left to look for. *)
Lemma suspicious_is_brace (command : string) :
  List.find (fun pattern => contains pattern command) BLOCKED_PATTERNS = None ->
  existsb (fun char => contains char command) ["$("; "`"; "{"; "}"]
  = contains "{" command || contains "}" command.
Proof.
  intros Hnone.
  assert (H1 : contains "$(" command = false).
  { apply (List.find_none _ _ Hnone). cbn. tauto. }
  assert (H2 : contains "`" command = false).
  { apply (List.find_none _ _ Hnone). cbn. tauto. }
  cbn [existsb]. rewrite H1, H2. cbn [orb]. now rewrite orb_false_r.
Qed.

(** The gate on a command within the limit that tokenizes. *)
Lemma gate_on_tokens (command : string) (parts : list string) :
  within_limit command ->
  shlex.split command = Ok parts ->
  is_command_safe command
  = match blocked_command (List.map lower parts) with
    | Some p0 => Ok (false, "Blocked command: " ++ p0)
    | None =>
        match List.find (fun pattern => contains pattern command) BLOCKED_PATTERNS with
        | Some pattern => Ok (false, "Blocked pattern detected: " ++ pattern)
        | None =>
            if contains "{" command || contains "}" command
            then Ok (false, "Command contains potentially dangerous characters")
            else Ok (true, "")
        end
    end.
Proof.
  intros Hlen Hsplit. rewrite gate_tokenizes by assumption. rewrite Hsplit.
  cbn [rmap rbind]. destruct (blocked_command _); [reflexivity |].
  destruct (List.find _ BLOCKED_PATTERNS) eqn:Hfind; [reflexivity |].
  now rewrite suspicious_is_brace.
Qed.

Lemma gate_no_tokens (command : string) (e : exn) :
  within_limit command ->
  shlex.split command = Raise e ->
  is_command_safe command = Raise e.
Proof.
  intros Hlen Hsplit. rewrite gate_tokenizes by assumption. now rewrite Hsplit.
Qed.

(** X1: the gate approves a command exactly when the command is within the
    length limit, tokenizes, has no blocked first token, contains no entry
    of [BLOCKED_PATTERNS] and contains no brace; the reason is then empty. *)
Theorem approved_iff (command reason : string) :
  is_command_safe command = Ok (true, reason)
  <-> reason = ""
      /\ within_limit command
      /\ (exists parts, shlex.split command = Ok parts /\ first_token_allowed parts)
      /\ (forall p, p ∈ BLOCKED_PATTERNS -> ~ occurs_in p command)
      /\ ~ occurs_in "{" command
      /\ ~ occurs_in "}" command.
Proof.
  split.
  - intros Hgate.
    destruct (over_limit_or_within command) as [Hover | Hlen].
    { rewrite gate_over_limit in Hgate by assumption. discriminate. }
    destruct (shlex.split command) as [parts | e] eqn:Hsplit.
    2:{ rewrite (gate_no_tokens _ _ Hlen Hsplit) in Hgate. discriminate. }
    rewrite (gate_on_tokens _ _ Hlen Hsplit) in Hgate.
    destruct (blocked_command _) eqn:Hblocked; [discriminate |].
    destruct (List.find _ BLOCKED_PATTERNS) eqn:Hfind; [discriminate |].
    destruct (contains "{" command) eqn:Hopen; [discriminate |].
    destruct (contains "}" command) eqn:Hclose; [discriminate |].
    injection Hgate as <-.
    split; [reflexivity |]. split; [assumption |].
    split; [exists parts; split; [reflexivity | now apply blocked_command_none] |].
    split; [now apply find_none_iff |].
    split; now apply contains_false.
  - intros (-> & Hlen & (parts & Hsplit & Hfirst) & Hpat & Hopen & Hclose).
    rewrite (gate_on_tokens _ _ Hlen Hsplit).
    apply blocked_command_none in Hfirst. rewrite Hfirst.
    apply find_none_iff in Hpat. rewrite Hpat.
    apply contains_false in Hopen, Hclose. now rewrite Hopen, Hclose.
Qed.

(** X2: every decision of the gate is an approval with the empty reason or a
    rejection with one of four reasons, none of them empty: the length
    limit, a member of [BLOCKED_COMMANDS], an entry of [BLOCKED_PATTERNS]
    that occurs in the command, or the dangerous characters. *)
Theorem gate_decision_shapes (command reason : string) (is_safe : bool) :
  is_command_safe command = Ok (is_safe, reason) ->
  (is_safe = true /\ reason = "")
  \/ (is_safe = false /\ reason <> ""
      /\ (reason = "Command too long (max 1000 characters)"
          \/ (exists t, t ∈ BLOCKED_COMMANDS /\ reason = "Blocked command: " ++ t)
          \/ (exists p, p ∈ BLOCKED_PATTERNS /\ occurs_in p command
                        /\ reason = "Blocked pattern detected: " ++ p)
          \/ reason = "Command contains potentially dangerous characters")).
Proof.
  intros Hgate.
  destruct (over_limit_or_within command) as [Hover | Hlen].
  { rewrite gate_over_limit in Hgate by assumption. injection Hgate as <- <-.
    right. split; [reflexivity |]. split; [discriminate | now left]. }
  destruct (shlex.split command) as [parts | e] eqn:Hsplit.
  2:{ rewrite (gate_no_tokens _ _ Hlen Hsplit) in Hgate. discriminate. }
  rewrite (gate_on_tokens _ _ Hlen Hsplit) in Hgate.
  destruct (blocked_command _) as [p0 |] eqn:Hblocked.
  { injection Hgate as <- <-. right. split; [reflexivity |].
    split; [discriminate |]. right; left.
    apply blocked_command_some in Hblocked as (t & rest & _ & -> & Hin).
    now exists (lower t). }
  destruct (List.find _ BLOCKED_PATTERNS) as [p |] eqn:Hfind.
  { injection Hgate as <- <-. right. split; [reflexivity |].
    split; [discriminate |]. right; right; left.
    apply List.find_some in Hfind as [Hin Hp].
    exists p. split; [now apply list_elem_of_In |].
    split; [now apply contains_spec | reflexivity]. }
  destruct (contains "{" command || contains "}" command).
  - injection Hgate as <- <-. right. split; [reflexivity |].
    split; [discriminate |]. now right; right; right.
  - injection Hgate as <- <-. now left.
Qed.

Lemma approved_iff_witness :
  is_command_safe "git log --oneline -5" = Ok (true, "")
  /\ within_limit "git log --oneline -5"
  /\ ~ occurs_in "{" "git log --oneline -5".
Proof.
  assert (H : is_command_safe "git log --oneline -5" = Ok (true, ""))
    by reflexivity.
  pose proof (proj1 (approved_iff "git log --oneline -5" "") H)
    as (_ & Hlen & _ & _ & Hopen & _).
  exact (conj H (conj Hlen Hopen)).
Defined.

Lemma gate_decision_shapes_witness :
  is_command_safe "chmod 777 x" = Ok (false, "Blocked command: chmod")
  /\ ((false = true /\ "Blocked command: chmod" = "")
      \/ (false = false /\ "Blocked command: chmod" <> ""
          /\ ("Blocked command: chmod" = "Command too long (max 1000 characters)"
              \/ (exists t, t ∈ BLOCKED_COMMANDS
                            /\ "Blocked command: chmod" = "Blocked command: " ++ t)
              \/ (exists p, p ∈ BLOCKED_PATTERNS /\ occurs_in p "chmod 777 x"
                            /\ "Blocked command: chmod"
                               = "Blocked pattern detected: " ++ p)
              \/ "Blocked command: chmod"
                 = "Command contains potentially dangerous characters"))).
Proof.
  assert (H : is_command_safe "chmod 777 x" = Ok (false, "Blocked command: chmod"))
    by reflexivity.
  exact (conj H (gate_decision_shapes _ _ _ H)).
Defined.

(** X3: the reason "Command contains potentially dangerous characters" is
    given exactly to the commands within the limit that tokenize with an
    unblocked first token, contain no entry of [BLOCKED_PATTERNS] and
    contain a brace; the two other characters of that check, the dollar
    parenthesis and the backquote, are entries of [BLOCKED_PATTERNS] and
    never reach it. *)
Theorem dangerous_characters_iff (command : string) :
  is_command_safe command
  = Ok (false, "Command contains potentially dangerous characters")
  <-> within_limit command
      /\ (exists parts, shlex.split command = Ok parts /\ first_token_allowed parts)
      /\ (forall p, p ∈ BLOCKED_PATTERNS -> ~ occurs_in p command)
      /\ (occurs_in "{" command \/ occurs_in "}" command).
Proof.
  split.
  - intros Hgate.
    destruct (over_limit_or_within command) as [Hover | Hlen].
    { rewrite gate_over_limit in Hgate by assumption. discriminate. }
    destruct (shlex.split command) as [parts | e] eqn:Hsplit.
    2:{ rewrite (gate_no_tokens _ _ Hlen Hsplit) in Hgate. discriminate. }
    rewrite (gate_on_tokens _ _ Hlen Hsplit) in Hgate.
    destruct (blocked_command _) eqn:Hblocked; [discriminate |].
    destruct (List.find _ BLOCKED_PATTERNS) eqn:Hfind; [discriminate |].
    destruct (contains "{" command || contains "}" command)%bool eqn:Hbrace;
      [| discriminate].
    split; [assumption |].
    split; [exists parts; split; [reflexivity | now apply blocked_command_none] |].
    split; [now apply find_none_iff |].
    apply orb_true_iff in Hbrace as [H | H]; [left | right];
      now apply contains_spec.
  - intros (Hlen & (parts & Hsplit & Hfirst) & Hpat & Hbrace).
    rewrite (gate_on_tokens _ _ Hlen Hsplit).
    apply blocked_command_none in Hfirst. rewrite Hfirst.
    apply find_none_iff in Hpat. rewrite Hpat.
    assert (Hb : (contains "{" command || contains "}" command)%bool = true).
    { apply orb_true_iff.
      destruct Hbrace as [H | H]; [left | right]; now apply contains_spec. }
    now rewrite Hb.
Qed.

Lemma dangerous_characters_iff_witness :
  is_command_safe "echo {a,b}"
  = Ok (false, "Command contains potentially dangerous characters")
  /\ (occurs_in "{" "echo {a,b}" \/ occurs_in "}" "echo {a,b}").
Proof.
  assert (H : is_command_safe "echo {a,b}"
              = Ok (false, "Command contains potentially dangerous characters"))
    by reflexivity.
  pose proof (proj1 (dangerous_characters_iff "echo {a,b}") H)
    as (_ & _ & _ & Hbrace).
  exact (conj H Hbrace).
Defined.

Lemma append_assoc (a b c : string) : (a ++ b) ++ c = a ++ (b ++ c).
Proof.
  induction a as [| x a IH]; [reflexivity |].
  change (String x ((a ++ b) ++ c) = String x (a ++ (b ++ c))).
  now rewrite IH.
Qed.

Lemma occurs_in_trans (p q s : string) :
  occurs_in p q -> occurs_in q s -> occurs_in p s.
Proof.
  intros (a & b & ->) (c & d & ->).
  exists (c ++ a), (b ++ d).
  now rewrite !append_assoc.
Qed.

(** X4: no command is ever rejected for the pattern [>>]: a command that
    contains it contains [>], which comes first in [BLOCKED_PATTERNS]. *)
Theorem double_redirect_never_named (command : string) :
  is_command_safe command <> Ok (false, "Blocked pattern detected: >>").
Proof.
  intros Hgate.
  destruct (over_limit_or_within command) as [Hover | Hlen].
  { rewrite gate_over_limit in Hgate by assumption. discriminate. }
  destruct (shlex.split command) as [parts | e] eqn:Hsplit.
  2:{ rewrite (gate_no_tokens _ _ Hlen Hsplit) in Hgate. discriminate. }
  rewrite (gate_on_tokens _ _ Hlen Hsplit) in Hgate.
  destruct (blocked_command _) eqn:Hblocked; [discriminate |].
  destruct (List.find _ BLOCKED_PATTERNS) as [p |] eqn:Hfind.
  - assert (Hp : p = ">>") by (injection Hgate as H; exact H).
    subst p. apply find_first_matching in Hfind as (before & after & Hlist & Hocc & Hbefore).
    assert (Hin : ">" ∈ before).
    { unfold BLOCKED_PATTERNS in Hlist.
      do 5 (destruct before as [| ? before]; [discriminate |];
            injection Hlist as <- Hlist).
      set_solver. }
    apply (Hbefore ">" Hin).
    apply (occurs_in_trans ">" ">>" command); [now exists "", ">" | assumption].
  - destruct (contains "{" command || contains "}" command); discriminate.
Qed.

(** ** Plain words and blanks under the tokenizer *)

Lemma append_cons (c : ascii) (a b : string) : String c a ++ b = String c (a ++ b).
Proof. reflexivity. Qed.

Lemma append_empty_r (a : string) : a ++ "" = a.
Proof.
  induction a as [| x a IH]; [reflexivity |]. now rewrite append_cons, IH.
Qed.

Lemma snoc_append (tok w : string) (c : ascii) : snoc tok c ++ w = tok ++ String c w.
Proof. unfold snoc. now rewrite append_assoc. Qed.

Lemma snoc_not_empty (tok : string) (c : ascii) : snoc tok c <> "".
Proof. destruct tok; discriminate. Qed.

Lemma plain_char_classes (c : ascii) :
  plain_char c = true ->
  char_in c shlex.whitespace = false
  /\ char_in c shlex.quotes = false
  /\ char_in c shlex.escape = false.
Proof.
  unfold plain_char. intros H.
  apply andb_true_iff in H as [H H3]. apply andb_true_iff in H as [H1 H2].
  now rewrite negb_true_iff in H1, H2, H3.
Qed.

Lemma not_empty_eqb (tok : string) : tok <> "" -> String.eqb tok "" = false.
Proof. intros H. now destruct (String.eqb_spec tok ""). Qed.

(** In the middle of a word, the plain characters up to the next space, or
    up to the end, join the token. *)
Lemma read_word (w : string) :
  forall tok quoted esc,
    plain w = true -> tok <> "" ->
    (forall rest,
       shlex.read_tokens (w ++ String " " rest) shlex.StWord tok quoted esc
       = rmap (cons (tok ++ w))
           (shlex.read_tokens rest shlex.StSpace "" false shlex.StSpace))
    /\ shlex.read_tokens w shlex.StWord tok quoted esc = Ok [tok ++ w].
Proof.
  induction w as [| c w IH]; intros tok quoted esc Hplain Htok.
  - rewrite append_empty_r. split.
    + intros rest. change ("" ++ String " " rest) with (String " "%char rest).
      cbn [shlex.read_tokens]. change (char_in " " shlex.whitespace) with true.
      unfold shlex.has_token, shlex.finish.
      rewrite (not_empty_eqb tok Htok). cbn [negb orb andb].
      now rewrite andb_false_r.
    + cbn [shlex.read_tokens]. unfold shlex.finish.
      rewrite (not_empty_eqb tok Htok). now rewrite andb_false_r.
  - cbn [plain all_chars] in Hplain.
    apply andb_true_iff in Hplain as [Hc Hw].
    apply plain_char_classes in Hc as (Hws & Hq & He).
    destruct (IH (snoc tok c) quoted esc Hw (snoc_not_empty tok c)) as [IH1 IH2].
    rewrite snoc_append in IH1, IH2. split.
    + intros rest. rewrite append_cons. cbn [shlex.read_tokens].
      rewrite Hws, Hq, He. apply IH1.
    + cbn [shlex.read_tokens]. rewrite Hws, Hq, He. exact IH2.
Qed.

Lemma split_word (u : string) :
  plain u = true -> u <> "" ->
  shlex.split u = Ok [u]
  /\ forall rest,
       shlex.split (u ++ " " ++ rest) = rmap (cons u) (shlex.split rest).
Proof.
  intros Hplain Hu. destruct u as [| c w]; [contradiction |].
  cbn [plain all_chars] in Hplain.
  apply andb_true_iff in Hplain as [Hc Hw].
  apply plain_char_classes in Hc as (Hws & Hq & He).
  assert (Hne : String c "" <> "") by discriminate.
  destruct (read_word w (String c "") false shlex.StSpace Hw Hne) as [H1 H2].
  unfold shlex.split. split.
  - cbn [shlex.read_tokens]. rewrite Hws, Hq, He. exact H2.
  - intros rest. rewrite append_cons. cbn [shlex.read_tokens].
    rewrite Hws, Hq, He. apply H1.
Qed.

Lemma all_chars_lower (f : ascii -> bool) (s : string) :
  (forall c, f (lower_char c) = f c) ->
  all_chars f (lower s) = all_chars f s.
Proof.
  intros Hf. induction s as [| c s IH]; [reflexivity |].
  cbn [lower all_chars]. now rewrite Hf, IH.
Qed.

Lemma plain_lower (u : string) : plain (lower u) = plain u.
Proof.
  apply all_chars_lower. intros c. unfold plain_char.
  now rewrite !lower_char_class by auto.
Qed.

Lemma lower_length (s : string) : String.length (lower s) = String.length s.
Proof.
  induction s as [| c s IH]; [reflexivity |]. cbn [lower String.length].
  now rewrite IH.
Qed.

Lemma blocked_names_plain (b : string) :
  b ∈ BLOCKED_COMMANDS ->
  plain b = true /\ b <> "" /\ (String.length b <= 9)%nat.
Proof.
  unfold BLOCKED_COMMANDS. rewrite elem_of_list_to_set. intros Hin.
  repeat (apply elem_of_cons in Hin as [-> | Hin];
          [split; [reflexivity | split; [discriminate | cbn; lia]] |]).
  inversion Hin.
Qed.

(** X5: a command that starts with a blocked name, in any mix of capitals, is
    rejected with that name when it stands alone; when a space and
    arguments follow, it is rejected with that name if the arguments
    tokenize, and otherwise the tokenizer's exception is the outcome. *)
Theorem blocked_name_with_arguments (u rest : string) :
  lower u ∈ BLOCKED_COMMANDS ->
  is_command_safe u = Ok (false, "Blocked command: " ++ lower u)
  /\ (within_limit (u ++ " " ++ rest) ->
      is_command_safe (u ++ " " ++ rest)
      = match shlex.split rest with
        | Ok _ => Ok (false, "Blocked command: " ++ lower u)
        | Raise e => Raise e
        end).
Proof.
  intros Hblocked.
  destruct (blocked_names_plain _ Hblocked) as (Hplain & Hne & Hshort).
  rewrite plain_lower in Hplain. rewrite lower_length in Hshort.
  assert (Hu : u <> "") by (intros ->; now apply Hne).
  destruct (split_word u Hplain Hu) as [Halone Hargs].
  assert (Hhead : forall l,
    blocked_command (List.map lower (u :: l)) = Some (lower u)).
  { intros l. cbn [List.map blocked_command]. now rewrite bool_decide_eq_true_2. }
  split.
  - assert (Hlen : within_limit u).
    { unfold within_limit, MAX_COMMAND_LENGTH. lia. }
    rewrite (gate_on_tokens _ _ Hlen Halone). now rewrite Hhead.
  - intros Hlen. specialize (Hargs rest).
    destruct (shlex.split rest) as [parts | e]; cbn [rmap rbind] in Hargs.
    + rewrite (gate_on_tokens _ _ Hlen Hargs). now rewrite Hhead.
    + now apply gate_no_tokens.
Qed.

Lemma blocked_name_with_arguments_witness :
  lower "Sudo" ∈ BLOCKED_COMMANDS
  /\ within_limit ("Sudo" ++ " " ++ "reboot 'now")
  /\ shlex.split "reboot 'now" = Raise (ValueError "No closing quotation")
  /\ is_command_safe "Sudo" = Ok (false, "Blocked command: sudo")
  /\ is_command_safe ("Sudo" ++ " " ++ "reboot 'now")
     = Raise (ValueError "No closing quotation").
Proof.
  assert (H1 : lower "Sudo" ∈ BLOCKED_COMMANDS)
    by (apply (bool_decide_unpack _); vm_compute; exact I).
  assert (H2 : within_limit ("Sudo" ++ " " ++ "reboot 'now"))
    by (unfold within_limit; vm_compute; discriminate).
  assert (H3 : shlex.split "reboot 'now" = Raise (ValueError "No closing quotation"))
    by reflexivity.
  pose proof (blocked_name_with_arguments "Sudo" "reboot 'now" H1) as [Ha Hb].
  specialize (Hb H2). rewrite H3 in Hb.
  exact (conj H1 (conj H2 (conj H3 (conj Ha Hb)))).
Defined.

Lemma all_chars_app (f : ascii -> bool) (a b : string) :
  all_chars f (a ++ b) = all_chars f a && all_chars f b.
Proof.
  induction a as [| x a IH]; [reflexivity |].
  rewrite append_cons. cbn [all_chars]. now rewrite IH, andb_assoc.
Qed.

Lemma occurs_all_chars (f : ascii -> bool) (p s : string) :
  all_chars f s = true -> occurs_in p s -> all_chars f p = true.
Proof.
  intros Hs (pre & post & ->). rewrite !all_chars_app in Hs.
  apply andb_true_iff in Hs as [_ Hs]. now apply andb_true_iff in Hs as [Hs _].
Qed.

Lemma split_blank (s : string) :
  blank s = true -> shlex.split s = Ok [].
Proof.
  unfold shlex.split. induction s as [| c s IH]; intros Hs; [reflexivity |].
  cbn [blank all_chars] in Hs. apply andb_true_iff in Hs as [Hc Hs].
  cbn [shlex.read_tokens]. rewrite Hc. cbn. now apply IH.
Qed.

(** X6: a command made of blanks only (spaces, tabs, line ends; also the
    empty command) within the length limit is approved. *)
Theorem blank_command_approved (command : string) :
  blank command = true ->
  within_limit command ->
  is_command_safe command = Ok (true, "").
Proof.
  intros Hblank Hlen.
  rewrite (gate_on_tokens _ _ Hlen (split_blank _ Hblank)).
  cbn [List.map blocked_command].
  assert (Hnone : forall p, blank p = false -> contains p command = false).
  { intros p Hp. apply contains_false. intros Hocc.
    unfold blank in *. rewrite (occurs_all_chars _ _ _ Hblank Hocc) in Hp.
    discriminate. }
  assert (Hfind : List.find (fun pattern => contains pattern command)
                    BLOCKED_PATTERNS = None).
  { apply find_none_iff. intros p Hin. apply contains_false, Hnone.
    unfold BLOCKED_PATTERNS in Hin.
    repeat (apply elem_of_cons in Hin as [-> | Hin]; [reflexivity |]).
    inversion Hin. }
  rewrite Hfind, !Hnone by reflexivity. reflexivity.
Qed.

Lemma blank_command_approved_witness :
  blank (String " " (String "009" (String "010" ""))) = true
  /\ within_limit (String " " (String "009" (String "010" "")))
  /\ is_command_safe (String " " (String "009" (String "010" ""))) = Ok (true, "").
Proof.
  assert (H1 : blank (String " " (String "009" (String "010" ""))) = true)
    by reflexivity.
  assert (H2 : within_limit (String " " (String "009" (String "010" ""))))
    by (unfold within_limit; vm_compute; discriminate).
  exact (conj H1 (conj H2 (blank_command_approved _ H1 H2))).
Defined.

(** X7: every command that [list_safe_commands] advertises is approved by
    the gate. *)
Theorem safe_commands_pass_gate (c : string) :
  c ∈ list_safe_commands -> is_command_safe c = Ok (true, "").
Proof.
  unfold list_safe_commands. intros Hin.
  repeat (apply elem_of_cons in Hin as [-> | Hin]; [reflexivity |]).
  inversion Hin.
Qed.

Lemma safe_commands_pass_gate_witness :
  "cat /etc/os-release" ∈ list_safe_commands
  /\ is_command_safe "cat /etc/os-release" = Ok (true, "").
Proof.
  assert (H : "cat /etc/os-release" ∈ list_safe_commands).
  { unfold list_safe_commands. do 5 apply list_elem_of_further.
    apply list_elem_of_here. }
  exact (conj H (safe_commands_pass_gate _ H)).
Defined.

(** ** What leaves a call *)





(** X9: whatever the command, the directory and the host, a call started
    afresh makes one of these sequences of calls: none; one spawn, which
    failed; one spawn and the wait for its output, which came in time; one
    spawn, that wait, then at the deadline a kill and a wait.  It spawns at
    most once and kills only after the deadline.  The one way for a call not
    to come back is that last wait: whenever a call comes back, with a
    result or an exception, the shell it spawned, if any, has been waited
    for.  The commands that the shell started are not followed. *)
Theorem call_footprint (decode : list Byte.byte -> string) (h : Host)
    (cmd : string) (wd : option string) :
  exists env,
    footprint cmd wd env (snd (execute_bash_command decode h cmd wd initial))
    /\ (fst (execute_bash_command decode h cmd wd initial) = Pending
        <-> process (snd (execute_bash_command decode h cmd wd initial)) = Killed)
    /\ (fst (execute_bash_command decode h cmd wd initial) <> Pending ->
        process (snd (execute_bash_command decode h cmd wd initial)) = NoProcess
        \/ process (snd (execute_bash_command decode h cmd wd initial)) = Reaped).
Proof.
  destruct (execute_cases decode h cmd wd initial)
    as [(e & -> & _) | [(err & dir & _ & ->) | (reason & _ & _ & ->)]].
  - exists ∅. cbn. split; [constructor |]. split; [split; discriminate | auto].
  - exists ∅. cbn. split; [constructor |]. split; [split; discriminate | auto].
  - destruct (run_command_cases decode h cmd wd initial)
      as [(x & _ & ->)
         | (dir & _ & [(x & _ & ->)
                      | [(c & _ & _ & ->)
                        | [(c & _ & _ & _ & ->) | (c & _ & _ & _ & ->)]]])].
    + exists ∅. cbn. split; [constructor |]. split; [split; discriminate | auto].
    + exists (child_env h dir). cbn. split; [constructor |].
      split; [split; discriminate | auto].
    + exists (child_env h dir). cbn. split; [constructor |].
      split; [split; discriminate | auto].
    + exists (child_env h dir). cbn. split; [constructor |].
      split; [split; discriminate | auto].
    + exists (child_env h dir). cbn. split; [constructor |].
      split; [split; reflexivity | intros H; now destruct H].
Qed.

(** X10: every result echoes the command it was given, reports as working
    directory the one given or else the current one, and has success true
    exactly when its return code is 0. *)
Theorem result_fields (decode : list Byte.byte -> string) (h : Host)
    (cmd : string) (wd : option string) (s s' : run_state) (r : ExecutionResult) :
  execute_bash_command decode h cmd wd s = (Done (Ok r), s') ->
  command r = cmd
  /\ resolve h wd = Ok (working_dir r)
  /\ (success r = true <-> return_code r = 0).
Proof.
  intros Hcall.
  destruct (execute_cases decode h cmd wd s)
    as [(e & Hout & _) | [(err & dir & Hres & Hout) | (reason & _ & _ & Hout)]];
    rewrite Hout in Hcall.
  - discriminate.
  - injection Hcall as <- <-. cbn. repeat split; try discriminate. exact Hres.
  - destruct (run_command_cases decode h cmd wd s)
      as [(x & _ & Hrun)
         | (dir & Hres & [(x & _ & Hrun)
                         | [(c & _ & _ & Hrun)
                           | [(c & _ & _ & _ & Hrun) | (c & _ & _ & _ & Hrun)]]])];
      rewrite Hrun in Hcall; try discriminate;
      injection Hcall as <- <-; cbn;
      repeat split; try discriminate; try exact Hres.
    + now intros ?%Z.eqb_eq.
    + now intros ?%Z.eqb_eq.
Qed.

Lemma result_fields_witness :
  execute_bash_command sample_decode sample_host "ls -la" (Some "/tmp") initial
  = (Done (Ok {| success := true; stdout := "hi"; stderr := ""; return_code := 0;
                 error := None; command := "ls -la"; working_dir := "/tmp" |}),
     {| trace := [Spawn "ls -la" (Some "/tmp") (child_env sample_host "/tmp");
                  Communicate TIMEOUT_SECONDS];
        process := Reaped |})
  /\ resolve sample_host (Some "/tmp") = Ok "/tmp".
Proof.
  assert (H : execute_bash_command sample_decode sample_host "ls -la"
                (Some "/tmp") initial
              = (Done (Ok {| success := true; stdout := "hi"; stderr := "";
                             return_code := 0; error := None; command := "ls -la";
                             working_dir := "/tmp" |}),
                 {| trace := [Spawn "ls -la" (Some "/tmp")
                                (child_env sample_host "/tmp");
                              Communicate TIMEOUT_SECONDS];
                    process := Reaped |}))
    by reflexivity.
  pose proof (result_fields _ _ _ _ _ _ _ H) as (_ & Hwd & _).
  exact (conj H Hwd).
Defined.

(** X11: a result carries output only when the command ran to completion
    within the deadline: if its stdout or its stderr is not empty, the shell
    was spawned and exited in time, the pipes were at their end in time, and
    the result holds the shell's exit status and its decoded, stripped
    output.  What a killed command had written is dropped. *)
Theorem output_only_on_completion (decode : list Byte.byte -> string)
    (h : Host) (cmd : string) (wd : option string) (s' : run_state)
    (r : ExecutionResult) :
  execute_bash_command decode h cmd wd initial = (Done (Ok r), s') ->
  stdout r <> "" \/ stderr r <> "" ->
  exists c,
    spawn h cmd wd (child_env h (working_dir r)) = Ok c
    /\ exits_within c TIMEOUT_SECONDS = true
    /\ released_within c TIMEOUT_SECONDS = true
    /\ return_code r = returncode c
    /\ stdout r = strip (decode (child_stdout c))
    /\ stderr r = strip (decode (child_stderr c))
    /\ trace s' = [Spawn cmd wd (child_env h (working_dir r));
                   Communicate TIMEOUT_SECONDS].
Proof.
  intros Hcall Hout.
  destruct (execute_cases decode h cmd wd initial)
    as [(e & Hexec & _) | [(err & dir & _ & Hexec) | (reason & _ & _ & Hexec)]];
    rewrite Hexec in Hcall.
  - discriminate.
  - injection Hcall as <- <-. cbn in Hout. now destruct Hout.
  - destruct (run_command_cases decode h cmd wd initial)
      as [(x & _ & Hrun)
         | (dir & _ & [(x & _ & Hrun)
                      | [(c & Hspawn & Hin & Hrun)
                        | [(c & _ & _ & _ & Hrun) | (c & _ & _ & _ & Hrun)]]])];
      rewrite Hrun in Hcall; try discriminate; injection Hcall as <- <-;
      try (cbn in Hout; now destruct Hout).
    apply completes_within_spec in Hin as [Hexit Heof].
    exists c. cbn. now repeat split.
Qed.

Lemma output_only_on_completion_witness :
  execute_bash_command sample_decode failing_host "ls /nonexistent" None initial
  = (Done (Ok {| success := false; stdout := ""; stderr := "no"; return_code := 2;
                 error := Some "Command failed with return code 2";
                 command := "ls /nonexistent"; working_dir := "/" |}),
     {| trace := [Spawn "ls /nonexistent" None (child_env failing_host "/");
                  Communicate TIMEOUT_SECONDS];
        process := Reaped |})
  /\ exists c,
       spawn failing_host "ls /nonexistent" None (child_env failing_host "/") = Ok c
       /\ exits_within c TIMEOUT_SECONDS = true
       /\ released_within c TIMEOUT_SECONDS = true
       /\ returncode c = 2.
Proof.
  assert (H : execute_bash_command sample_decode failing_host "ls /nonexistent"
                None initial
              = (Done (Ok {| success := false; stdout := ""; stderr := "no";
                             return_code := 2;
                             error := Some "Command failed with return code 2";
                             command := "ls /nonexistent"; working_dir := "/" |}),
                 {| trace := [Spawn "ls /nonexistent" None
                                (child_env failing_host "/");
                              Communicate TIMEOUT_SECONDS];
                    process := Reaped |}))
    by reflexivity.
  assert (Hout : stdout {| success := false; stdout := ""; stderr := "no";
                           return_code := 2;
                           error := Some "Command failed with return code 2";
                           command := "ls /nonexistent"; working_dir := "/" |} <> ""
                 \/ stderr {| success := false; stdout := ""; stderr := "no";
                              return_code := 2;
                              error := Some "Command failed with return code 2";
                              command := "ls /nonexistent"; working_dir := "/" |} <> "")
    by (right; discriminate).
  destruct (output_only_on_completion _ _ _ _ _ _ H Hout)
    as (c & Hspawn & Hin & Heof & Hrc & _).
  exact (conj H (ex_intro _ c (conj Hspawn (conj Hin (conj Heof (eq_sym Hrc)))))).
Defined.



(** X13: when the spawn of an approved command raises, the exception is
    caught: the call returns success false, return code -1, empty output
    and the error "Execution error: " followed by the text of the
    exception; no process exists and nothing is waited for or killed. *)
Theorem spawn_failure_reported (decode : list Byte.byte -> string)
    (h : Host) (cmd reason dir : string) (wd : option string) (e : exn) :
  is_command_safe cmd = Ok (true, reason) ->
  valid_working_dir h wd ->
  resolve h wd = Ok dir ->
  spawn h cmd wd (child_env h dir) = Raise e ->
  execute_bash_command decode h cmd wd initial
  = (Done (Ok {| success := false; stdout := ""; stderr := ""; return_code := -1;
                 error := Some ("Execution error: " ++ exn_str e);
                 command := cmd; working_dir := dir |}),
     {| trace := [Spawn cmd wd (child_env h dir)]; process := NoProcess |}).
Proof.
  intros Hgate Hdir Hres Hspawn.
  rewrite (execute_approved _ _ _ _ _ _ Hgate Hdir).
  now rewrite (run_spawn_fails _ _ _ _ _ _ _ Hres Hspawn).
Qed.

Lemma spawn_failure_reported_witness :
  is_command_safe "pwd" = Ok (true, "")
  /\ valid_working_dir failing_host None
  /\ resolve failing_host None = Ok "/"
  /\ execute_bash_command sample_decode failing_host "pwd" None initial
     = (Done (Ok {| success := false; stdout := ""; stderr := "";
                    return_code := -1;
                    error := Some "Execution error: [Errno 2] No such file or directory";
                    command := "pwd"; working_dir := "/" |}),
        {| trace := [Spawn "pwd" None (child_env failing_host "/")];
           process := NoProcess |}).
Proof.
  assert (H1 : is_command_safe "pwd" = Ok (true, "")) by reflexivity.
  assert (H2 : valid_working_dir failing_host None) by exact I.
  assert (Hr : resolve failing_host None = Ok "/") by reflexivity.
  assert (H3 : spawn failing_host "pwd" None (child_env failing_host "/")
               = Raise (OSError "[Errno 2] No such file or directory"))
    by reflexivity.
  exact (conj H1 (conj H2 (conj Hr
           (spawn_failure_reported sample_decode failing_host "pwd" "" "/" None _
              H1 H2 Hr H3)))).
Defined.

(** ** Stripping *)

Lemma lstrip_head (s : string) (c : ascii) (t : string) :
  lstrip s = String c t -> isspace c = false.
Proof.
  induction s as [| x s IH]; cbn [lstrip]; [discriminate |].
  destruct (isspace x) eqn:Hx; [exact IH |]. now intros [= <- _].
Qed.

Lemma rstrip_head (s : string) (c : ascii) (t : string) :
  rstrip s = String c t -> exists s', s = String c s'.
Proof.
  destruct s as [| x s]; cbn [rstrip]; [discriminate |].
  destruct (rstrip s); [destruct (isspace x); [discriminate |] |];
    intros [= <- _]; now exists s.
Qed.

Lemma rstrip_keeps_head (c : ascii) (s : string) :
  isspace c = false -> exists t, rstrip (String c s) = String c t.
Proof.
  intros Hc. cbn [rstrip]. destruct (rstrip s) as [| y r].
  - rewrite Hc. now exists "".
  - now exists (String y r).
Qed.

Lemma rstrip_last (s : string) :
  forall t c, rstrip s = t ++ String c "" -> isspace c = false.
Proof.
  induction s as [| x s IH]; intros t c; cbn [rstrip].
  - destruct t; discriminate.
  - destruct (rstrip s) as [| y r] eqn:Hr.
    + destruct (isspace x) eqn:Hx; [destruct t; discriminate |].
      destruct t as [| z t]; [now intros [= <-] |].
      rewrite append_cons. intros [= _ H]. destruct t; discriminate.
    + destruct t as [| z t]; [discriminate |].
      rewrite append_cons. intros [= _ H]. exact (IH t c H).
Qed.

Lemma strip_stripped (s : string) : stripped (strip s).
Proof.
  unfold strip. split.
  - intros c t Hs. destruct (rstrip_head _ _ _ Hs) as [s' Hl].
    exact (lstrip_head _ _ _ Hl).
  - intros t c Hs. exact (rstrip_last _ _ _ Hs).
Qed.

Lemma empty_stripped : stripped "".
Proof.
  split; [discriminate |]. intros t c H. destruct t; discriminate.
Qed.

(** X14: in every result the standard output and the standard error have no
    white space at either end, whatever the bytes the command wrote and
    however they decode. *)
Theorem output_is_stripped (decode : list Byte.byte -> string) (h : Host)
    (cmd : string) (wd : option string) (s s' : run_state) (r : ExecutionResult) :
  execute_bash_command decode h cmd wd s = (Done (Ok r), s') ->
  stripped (stdout r) /\ stripped (stderr r).
Proof.
  intros Hcall.
  destruct (execute_cases decode h cmd wd s)
    as [(e & Hexec & _) | [(err & dir & _ & Hexec) | (reason & _ & _ & Hexec)]];
    rewrite Hexec in Hcall.
  - discriminate.
  - injection Hcall as <- <-. split; apply empty_stripped.
  - destruct (run_command_cases decode h cmd wd s)
      as [(x & _ & Hrun)
         | (dir & _ & [(x & _ & Hrun)
                      | [(c & _ & _ & Hrun)
                        | [(c & _ & _ & _ & Hrun) | (c & _ & _ & _ & Hrun)]]])];
      rewrite Hrun in Hcall; try discriminate; injection Hcall as <- <-; cbn;
      split; first [apply empty_stripped | apply strip_stripped].
Qed.

Lemma output_is_stripped_witness :
  sample_decode [Byte.x68; Byte.x69; Byte.x0a] = String "h" (String "i" (String "010" ""))
  /\ fst (execute_bash_command sample_decode sample_host "ls -la" None initial)
     = Done (Ok {| success := true; stdout := "hi"; stderr := ""; return_code := 0;
                   error := None; command := "ls -la"; working_dir := "/srv" |})
  /\ stripped "hi".
Proof.
  assert (H0 : sample_decode [Byte.x68; Byte.x69; Byte.x0a]
               = String "h" (String "i" (String "010" ""))) by reflexivity.
  assert (H : execute_bash_command sample_decode sample_host "ls -la" None initial
              = (Done (Ok {| success := true; stdout := "hi"; stderr := "";
                             return_code := 0; error := None; command := "ls -la";
                             working_dir := "/srv" |}),
                 {| trace := [Spawn "ls -la" None (child_env sample_host "/srv");
                              Communicate TIMEOUT_SECONDS];
                    process := Reaped |}))
    by reflexivity.
  exact (conj H0 (conj (f_equal fst H)
           (proj1 (output_is_stripped _ _ _ _ _ _ _ H)))).
Defined.

(** X15: the empty string as working directory counts as none given: for an
    approved command the directory validation is skipped whatever the host
    says of that path, the shell is spawned with the empty string as [cwd]
    and the current directory as PWD, a spawn that raises is reported as an
    execution error, and every result reports the current directory. *)
Theorem empty_working_dir_not_validated (decode : list Byte.byte -> string)
    (h : Host) (cmd reason cwd : string) :
  is_command_safe cmd = Ok (true, reason) ->
  getcwd h = Ok cwd ->
  (exists rest,
     trace (snd (execute_bash_command decode h cmd (Some "") initial))
     = Spawn cmd (Some "") (child_env h cwd) :: rest)
  /\ child_env h cwd !! "PWD" = Some cwd
  /\ (forall e,
        spawn h cmd (Some "") (child_env h cwd) = Raise e ->
        fst (execute_bash_command decode h cmd (Some "") initial)
        = Done (Ok (failure ("Execution error: " ++ exn_str e) cmd cwd)))
  /\ (forall r,
        fst (execute_bash_command decode h cmd (Some "") initial) = Done (Ok r) ->
        working_dir r = cwd).
Proof.
  intros Hgate Hcwd.
  assert (Hdir : valid_working_dir h (Some "")) by exact I.
  assert (Hres : resolve h (Some "") = Ok cwd) by exact Hcwd.
  rewrite (execute_approved _ _ _ _ _ _ Hgate Hdir).
  assert (Hpwd : child_env h cwd !! "PWD" = Some cwd).
  { unfold child_env. by simplify_map_eq. }
  destruct (run_command_cases decode h cmd (Some "") initial)
    as [(x & Hx & _)
       | (dir & Hres' & [(x & Hspawn & ->)
                        | [(c & Hspawn & _ & ->)
                          | [(c & Hspawn & _ & _ & ->) | (c & Hspawn & _ & _ & ->)]]])];
    [congruence | | | |];
    assert (dir = cwd) by congruence; subst dir;
    (split; [eexists; reflexivity |]); (split; [exact Hpwd |]);
    (split; [intros e He; rewrite He in Hspawn; try discriminate;
             injection Hspawn as <-; reflexivity |]);
    cbn; intros r [= <-]; reflexivity.
Qed.

Lemma empty_working_dir_not_validated_witness :
  is_command_safe "pwd" = Ok (true, "")
  /\ getcwd failing_host = Ok "/"
  /\ path_exists failing_host "" = Ok false
  /\ fst (execute_bash_command sample_decode failing_host "pwd" (Some "") initial)
     = Done (Ok (failure "Execution error: [Errno 2] No such file or directory"
                         "pwd" "/")).
Proof.
  assert (H1 : is_command_safe "pwd" = Ok (true, "")) by reflexivity.
  assert (H2 : getcwd failing_host = Ok "/") by reflexivity.
  assert (H3 : path_exists failing_host "" = Ok false) by reflexivity.
  assert (H4 : spawn failing_host "pwd" (Some "") (child_env failing_host "/")
               = Raise (OSError "[Errno 2] No such file or directory"))
    by reflexivity.
  pose proof (empty_working_dir_not_validated sample_decode failing_host
                "pwd" "" "/" H1 H2) as (_ & _ & Hfail & _).
  exact (conj H1 (conj H2 (conj H3 (Hfail _ H4)))).
Defined.

(** ** The introspection tools *)

(** X16: the blocked commands that [get_security_info] reports are the
    members of [BLOCKED_COMMANDS], each once, in increasing order. *)
Theorem reported_blocked_commands :
  (forall c, c ∈ blocked_commands get_security_info <-> c ∈ BLOCKED_COMMANDS)
  /\ NoDup (blocked_commands get_security_info)
  /\ StronglySorted String.le (blocked_commands get_security_info).
Proof.
  cbn [blocked_commands get_security_info]. unfold sorted.
  split; [| split].
  - intros c. rewrite merge_sort_Permutation. apply elem_of_elements.
  - rewrite merge_sort_Permutation. apply NoDup_elements.
  - apply StronglySorted_merge_sort; apply _.
Qed.

(** X17: the environment variables that [get_security_info] reports as
    available are exactly the variables of the environment that
    [execute_bash_command] hands to the shell, on any host and with any
    working directory. *)
Theorem reported_environment_is_the_childs (h : Host) (pwd : string) :
  list_to_set (environment_variables_available get_security_info)
  = dom (child_env h pwd).
Proof.
  rewrite child_env_dom. cbn [environment_variables_available get_security_info].
  cbn [list_to_set]. set_solver.
Qed.

(** X18: the length that [get_security_info] reports is the one the gate
    enforces: a command gets the reason that cites the limit exactly when it
    is longer than the reported [max_command_length]. *)
Theorem reported_length_is_enforced (command : string) :
  is_command_safe command
  = Ok (false, "Command too long (max "
               ++ str_of_int (max_command_length get_security_info)
               ++ " characters)")
  <-> max_command_length get_security_info < Z.of_nat (String.length command).
Proof.
  cbn [max_command_length get_security_info]. split.
  - intros Hgate.
    destruct (over_limit_or_within command) as [Hover | Hlen]; [assumption |].
    exfalso.
    destruct (shlex.split command) as [parts | e] eqn:Hsplit.
    + rewrite (gate_on_tokens _ _ Hlen Hsplit) in Hgate.
      repeat match type of Hgate with
             | context [match ?x with _ => _ end] => destruct x
             end; discriminate.
    + rewrite (gate_no_tokens _ _ Hlen Hsplit) in Hgate. discriminate.
  - apply gate_over_limit.
Qed.

Example reported_blocked_commands_listed :
  blocked_commands get_security_info
  = [ "at"; "batch"; "chmod"; "chown"; "crontab"; "dd"; "del"; "fdisk";
      "format"; "halt"; "mkfs"; "passwd"; "poweroff"; "reboot"; "rm"; "rmdir";
      "service"; "shutdown"; "su"; "sudo"; "systemctl" ].
Proof. vm_compute. reflexivity. Qed.

(** ** Quoting the name of the command *)

Lemma quote_not_plain (c q : ascii) :
  plain_char c = true -> char_in q shlex.quotes = true -> Ascii.eqb c q = false.
Proof.
  intros Hc Hq. apply plain_char_classes in Hc as (_ & Hcq & _).
  destruct (Ascii.eqb_spec c q) as [-> |]; [congruence | reflexivity].
Qed.

(** Inside quotes, plain characters up to the closing quote join the token. *)
Lemma read_quoted (w : string) :
  forall tok quoted esc q rest,
    char_in q shlex.quotes = true -> plain w = true ->
    shlex.read_tokens (w ++ String q rest) (shlex.StQuote q) tok quoted esc
    = shlex.read_tokens rest shlex.StWord (tok ++ w) true esc.
Proof.
  induction w as [| c w IH]; intros tok quoted esc q rest Hq Hplain.
  - rewrite append_empty_r. change ("" ++ String q rest) with (String q rest).
    cbn [shlex.read_tokens]. now rewrite Ascii.eqb_refl.
  - cbn [plain all_chars] in Hplain.
    apply andb_true_iff in Hplain as [Hc Hw].
    rewrite append_cons. cbn [shlex.read_tokens].
    rewrite (quote_not_plain _ _ Hc Hq).
    apply plain_char_classes in Hc as (_ & _ & He). rewrite He. cbn [andb].
    rewrite (IH _ _ _ _ _ Hq Hw). now rewrite snoc_append.
Qed.

Lemma split_quoted_word (u : string) (q : ascii) :
  char_in q shlex.quotes = true -> plain u = true ->
  shlex.split (String q (u ++ String q "")) = Ok [u]
  /\ forall rest,
       shlex.split (String q (u ++ String q (" " ++ rest)))
       = rmap (cons u) (shlex.split rest).
Proof.
  intros Hq Hplain.
  assert (Hstart : forall rest,
    shlex.split (String q (u ++ String q rest))
    = shlex.read_tokens rest shlex.StWord u true shlex.StSpace).
  { intros rest. unfold shlex.split. cbn [shlex.read_tokens].
    assert (Hws : char_in q shlex.whitespace = false).
    { destruct q as [[] [] [] [] [] [] [] []]; try reflexivity; discriminate. }
    assert (He : char_in q shlex.escape = false).
    { destruct q as [[] [] [] [] [] [] [] []]; try reflexivity; discriminate. }
    rewrite Hws, He, Hq. now rewrite (read_quoted u "" false _ q rest Hq Hplain). }
  split.
  - rewrite Hstart. reflexivity.
  - intros rest. rewrite Hstart.
    change (" " ++ rest) with (String " "%char rest).
    cbn [shlex.read_tokens]. change (char_in " " shlex.whitespace) with true.
    unfold shlex.has_token, shlex.finish. now rewrite orb_true_r.
Qed.

Lemma length_append (a b : string) :
  String.length (a ++ b) = (String.length a + String.length b)%nat.
Proof.
  induction a as [| x a IH]; [reflexivity |].
  rewrite append_cons. cbn [String.length]. now rewrite IH.
Qed.

(** X19: quoting the name of a blocked command does not get it past the
    gate: the name between single or double quotes, in any mix of capitals,
    is rejected with that name, alone or followed by a space and arguments
    that tokenize; arguments that do not tokenize make the gate raise. *)
Theorem quoted_blocked_name_rejected (u rest : string) (q : ascii) :
  lower u ∈ BLOCKED_COMMANDS ->
  char_in q shlex.quotes = true ->
  is_command_safe (String q (u ++ String q ""))
  = Ok (false, "Blocked command: " ++ lower u)
  /\ (within_limit (String q (u ++ String q (" " ++ rest))) ->
      is_command_safe (String q (u ++ String q (" " ++ rest)))
      = match shlex.split rest with
        | Ok _ => Ok (false, "Blocked command: " ++ lower u)
        | Raise e => Raise e
        end).
Proof.
  intros Hblocked Hq.
  destruct (blocked_names_plain _ Hblocked) as (Hplain & Hne & Hshort).
  rewrite plain_lower in Hplain. rewrite lower_length in Hshort.
  destruct (split_quoted_word u q Hq Hplain) as [Halone Hargs].
  assert (Hhead : forall l,
    blocked_command (List.map lower (u :: l)) = Some (lower u)).
  { intros l. cbn [List.map blocked_command]. now rewrite bool_decide_eq_true_2. }
  split.
  - assert (Hlen : within_limit (String q (u ++ String q ""))).
    { unfold within_limit, MAX_COMMAND_LENGTH. cbn [String.length].
      rewrite length_append. cbn [String.length]. lia. }
    rewrite (gate_on_tokens _ _ Hlen Halone). now rewrite Hhead.
  - intros Hlen. specialize (Hargs rest).
    destruct (shlex.split rest) as [parts | e]; cbn [rmap rbind] in Hargs.
    + rewrite (gate_on_tokens _ _ Hlen Hargs). now rewrite Hhead.
    + now apply gate_no_tokens.
Qed.

Lemma quoted_blocked_name_rejected_witness :
  lower "RM" ∈ BLOCKED_COMMANDS
  /\ char_in "'" shlex.quotes = true
  /\ within_limit "'RM' -rf /"
  /\ is_command_safe "'RM'" = Ok (false, "Blocked command: rm")
  /\ is_command_safe "'RM' -rf /" = Ok (false, "Blocked command: rm").
Proof.
  assert (H1 : lower "RM" ∈ BLOCKED_COMMANDS)
    by (apply (bool_decide_unpack _); vm_compute; exact I).
  assert (H2 : char_in "'" shlex.quotes = true) by reflexivity.
  assert (H3 : within_limit "'RM' -rf /")
    by (unfold within_limit; vm_compute; discriminate).
  pose proof (quoted_blocked_name_rejected "RM" "-rf /" "'" H1 H2) as [Ha Hb].
  exact (conj H1 (conj H2 (conj H3 (conj Ha (Hb H3))))).
Defined.

(** X20: the first-token check compares the whole token with the blocked
    names: every blocked name written with its directory, as in [/bin/rm],
    is approved. *)
Theorem blocked_name_with_path_approved (b : string) :
  b ∈ BLOCKED_COMMANDS -> is_command_safe ("/bin/" ++ b) = Ok (true, "").
Proof.
  unfold BLOCKED_COMMANDS. rewrite elem_of_list_to_set. intros Hin.
  repeat (apply elem_of_cons in Hin as [-> | Hin]; [vm_compute; reflexivity |]).
  inversion Hin.
Qed.

Lemma blocked_name_with_path_approved_witness :
  "rm" ∈ BLOCKED_COMMANDS /\ is_command_safe "/bin/rm" = Ok (true, "").
Proof.
  assert (H : "rm" ∈ BLOCKED_COMMANDS)
    by (apply (bool_decide_unpack _); vm_compute; exact I).
  exact (conj H (blocked_name_with_path_approved "rm" H)).
Defined.
